(** * FIFO capital-gains calculator: a shallow embedding of TaxCalculator.py

    The development follows [src/TaxCalculator.py]:
    - [calculate_gains] (lines 59-112), the FIFO lot ledger, with its [for]
      loop over the transactions and its inner [while] loop over the open
      lots;
    - [summarize_gains] (lines 115-146), the aggregation of the realized
      gains into the figures of the summary.

    Numbers.  The program computes on Python floats.  They are modelled by
    exact rationals ([Q], compared with [==]), so the arithmetic below is the
    real-number reading of the float expressions; the amounts, prices and
    fees of the concrete ledgers below are exactly representable as floats.
    Dates are day numbers ([Z]): [parse_date] yields midnight datetimes, and
    [(a - b).days] is then the difference of the day numbers.

    The program is embedded twice.  The first embedding computes on values:
    the loops pass the queue of lots and the list of gains along, and an
    exception is a result.  The second one (module [Heap]) keeps the
    dictionaries and the lists of the program in a store of objects, for the
    statements about what a call may write to; it is shown to return what
    the first one returns. *)

From Stdlib Require Import ZArith QArith Qround Qabs Qminmax List Sorted Permutation String Bool Lia Lqa.
Import ListNotations.
Open Scope Q_scope.

(** ** Python primitives *)

Inductive exn : Type :=
| ZeroDivisionError
| IndexError
| TypeError.

(** The outcome of running a piece of the program: a value, a raised
    exception, or [Timeout] when the iteration budget of a loop of the model
    is exhausted (shown below never to happen). *)
Inductive result (A : Type) : Type :=
| Ok (a : A)
| Raise (e : exn)
| Timeout.

Arguments Ok {A} a.
Arguments Raise {A} e.
Arguments Timeout {A}.

Definition bind {A B : Type} (m : result A) (k : A -> result B) : result B :=
  match m with
  | Ok a => k a
  | Raise e => Raise e
  | Timeout => Timeout
  end.

Notation "x <- m ;; k" := (bind m (fun x => k))
  (at level 61, m at next level, right associativity).

(** [a < b] on floats. *)
Definition Qltb (a b : Q) : bool := negb (Qle_bool b a).

(** [min(a, b)]: Python returns the first argument unless the second is
    strictly smaller. *)
Definition py_min (a b : Q) : Q := if Qltb b a then b else a.

(** [a / b], which raises on a zero divisor. *)
Definition py_div (a b : Q) : result Q :=
  if Qeq_bool b 0 then Raise ZeroDivisionError else Ok (a / b).

(** Nearest integer, ties to even. *)
Definition round_half_even (y : Q) : Z :=
  let f := Qfloor y in
  let r := y - inject_Z f in
  if Qltb r (1 # 2) then f
  else if Qltb (1 # 2) r then (f + 1)%Z
  else if Z.even f then f else (f + 1)%Z.

(** [round(x, ndigits)]. *)
Definition py_round (x : Q) (ndigits : nat) : Q :=
  let s := Z.to_pos (10 ^ Z.of_nat ndigits) in
  Qmake (round_half_even (x * inject_Z (Zpos s))) s.

(** ** Configuration (lines 23-36) *)

Definition SHORT_TERM_TAX_RATE : Q := 0.24.
Definition LONG_TERM_TAX_RATE : Q := 0.15.
Definition MAX_CAPITAL_LOSS_DEDUCTION : Q := 3000.
Definition TRANSACTION_BUY : string := "BUY".
Definition TRANSACTION_SELL : string := "SALE".

(** ** Records *)

(** A transaction, as built by [load_transactions] (lines 48-54). *)
Module Tx.
Record t : Type := mk
    { date : Z; type : string; amount : Q; price : Q; fees : Q }.
End Tx.

(** An open lot (lines 65-70); [amount] is decreased in place by the sales. *)
Module Lot.
Record t : Type := mk
    { amount : Q; price : Q; date : Z; fees : Q }.

Definition set_amount (l : t) (a : Q) : t :=
    mk a (price l) (date l) (fees l).
End Lot.

Inductive term_t : Type := Short | Long.

(** A realized gain (lines 94-105). *)
Module Gain.
Record t : Type := mk
    { sell_date : Z; buy_date : Z; amount : Q; cost_basis : Q; proceeds : Q;
      gain : Q; holding_days : Z; term : term_t; tax_rate : Q; tax_owed : Q }.
End Gain.

(** The variables of the [while] loop of a sale. *)
Record wstate : Type := mkw
  { amount_to_sell : Q; lots : list Lot.t; realized : list Gain.t }.

(** ** The lot ledger (lines 59-112) *)

Section Ledger.

(** The rounding applied to the fields of an emitted record: [py_round] in
      the program. *)
Variable round_ : Q -> nat -> Q.

(** Line 77: [amount_to_sell > 0 and lots]. *)
Definition while_cond (st : wstate) : bool :=
    Qltb 0 (amount_to_sell st) && negb (List.length (lots st) =? 0)%nat.

(** Lines 78-110: one iteration of the [while] loop. *)
Definition while_body (tx : Tx.t) (st : wstate) : result wstate :=
    match lots st with
    | [] => Raise IndexError
    | lot :: rest =>
      let amount_from_lot := py_min (amount_to_sell st) (Lot.amount lot) in
      let cost_basis := amount_from_lot * Lot.price lot in
      let proceeds := amount_from_lot * Tx.price tx in
      let gain := proceeds - cost_basis in
      sell_share <- py_div amount_from_lot (Tx.amount tx) ;;
      let gain := gain - Tx.fees tx * sell_share in
      lot_share <- py_div amount_from_lot (Lot.amount lot) ;;
      let gain := gain - Lot.fees lot * lot_share in
      let holding_period_days := (Tx.date tx - Lot.date lot)%Z in
      let long_term := (365 <? holding_period_days)%Z in
      let tax_rate :=
        if long_term then LONG_TERM_TAX_RATE else SHORT_TERM_TAX_RATE in
      let tax_owed := if Qltb 0 gain then gain * tax_rate else 0 in
      let g :=
        Gain.mk (Tx.date tx) (Lot.date lot)
                (round_ amount_from_lot 8)
                (round_ cost_basis 2)
                (round_ proceeds 2)
                (round_ gain 2)
                holding_period_days
                (if long_term then Long else Short)
                tax_rate
                (round_ tax_owed 2) in
      let lot' := Lot.set_amount lot (Lot.amount lot - amount_from_lot) in
      let lots' := if Qeq_bool (Lot.amount lot') 0 then rest else lot' :: rest in
      Ok (mkw (amount_to_sell st - amount_from_lot) lots' (realized st ++ [g]))
    end.

(** Lines 77-110: the [while] loop, run for at most [fuel] tests of its
      condition. *)
Fixpoint while_loop (fuel : nat) (tx : Tx.t) (st : wstate) : result wstate :=
    match fuel with
    | O => Timeout
    | S fuel' =>
      if while_cond st then
        st' <- while_body tx st ;; while_loop fuel' tx st'
      else Ok st
    end.

(** Lines 64-110: the body of the [for] loop, on the pair of the open lots
      and the realized gains. *)
Definition for_body (tx : Tx.t) (s : list Lot.t * list Gain.t)
    : result (list Lot.t * list Gain.t) :=
    let (lots0, realized0) := s in
    if String.eqb (Tx.type tx) TRANSACTION_BUY then
      Ok (lots0 ++ [Lot.mk (Tx.amount tx) (Tx.price tx) (Tx.date tx) (Tx.fees tx)],
          realized0)
    else if String.eqb (Tx.type tx) TRANSACTION_SELL then
      st <- while_loop (List.length lots0 + 2) tx
                       (mkw (Tx.amount tx) lots0 realized0) ;;
      Ok (lots st, realized st)
    else Ok (lots0, realized0).

(** Line 63: the [for] loop. *)
Fixpoint for_loop (transactions : list Tx.t) (s : list Lot.t * list Gain.t)
    : result (list Lot.t * list Gain.t) :=
    match transactions with
    | [] => Ok s
    | tx :: rest => s' <- for_body tx s ;; for_loop rest s'
    end.

(** Lines 59-112, keeping the final queue of open lots with the result. *)
Definition ledger (transactions : list Tx.t)
    : result (list Lot.t * list Gain.t) :=
    for_loop transactions ([], []).

Definition calculate_gains_with (transactions : list Tx.t)
    : result (list Gain.t) :=
    s <- ledger transactions ;; Ok (snd s).

End Ledger.

(** [calculate_gains] of the program: the fields are rounded with [round]. *)
Definition calculate_gains : list Tx.t -> result (list Gain.t) :=
  calculate_gains_with py_round.

(** ** The gain aggregator (lines 115-146) *)

(** The five accumulators of line 116. *)
Record totals : Type := mkt
  { st_gain : Q; st_loss : Q; lt_gain : Q; lt_loss : Q; total_tax : Q }.

(** The figures printed by lines 140-146. *)
Record summary : Type := mks
  { sums : totals; net_gain : Q; net_loss : Q; deductible_loss : Q }.

(** Lines 122-133: the body of the loop over the gains. *)
Definition summarize_body (a : totals) (g : Gain.t) : totals :=
  let a' :=
    match Gain.term g with
    | Short =>
      if Qle_bool 0 (Gain.gain g)
      then mkt (st_gain a + Gain.gain g) (st_loss a) (lt_gain a) (lt_loss a)
               (total_tax a)
      else mkt (st_gain a) (st_loss a + Gain.gain g) (lt_gain a) (lt_loss a)
               (total_tax a)
    | Long =>
      if Qle_bool 0 (Gain.gain g)
      then mkt (st_gain a) (st_loss a) (lt_gain a + Gain.gain g) (lt_loss a)
               (total_tax a)
      else mkt (st_gain a) (st_loss a) (lt_gain a) (lt_loss a + Gain.gain g)
               (total_tax a)
    end in
  mkt (st_gain a') (st_loss a') (lt_gain a') (lt_loss a')
      (total_tax a' + Gain.tax_owed g).

(** Lines 116-137; the printing of the table and of the figures is left out,
    the figures themselves are returned. *)
Definition summarize_gains (gains : list Gain.t) : summary :=
  let a := fold_left summarize_body gains (mkt 0 0 0 0 0) in
  let net_gain := st_gain a + lt_gain a + st_loss a + lt_loss a in
  let net_loss := st_loss a + lt_loss a in
  let deductible_loss :=
    if Qltb net_gain 0
    then py_min (Qabs net_loss) MAX_CAPITAL_LOSS_DEDUCTION
    else 0 in
  mks a net_gain net_loss deductible_loss.

Definition buy (d : Z) (a p f : Q) : Tx.t := Tx.mk d TRANSACTION_BUY a p f.
Definition sale (d : Z) (a p f : Q) : Tx.t := Tx.mk d TRANSACTION_SELL a p f.

(** ** Notions used by the statements *)

Definition lot_positive (l : Lot.t) : Prop := 0 < Lot.amount l.

(** The amount taken from the front lot by an iteration. *)
Definition consumed (st : wstate) : Q :=
  match lots st with
  | [] => 0
  | lot :: _ => py_min (amount_to_sell st) (Lot.amount lot)
  end.

(** The queue left by an iteration. *)
Definition queue_after (st : wstate) : list Lot.t :=
  match lots st with
  | [] => []
  | lot :: rest =>
    let a := Lot.amount lot - consumed st in
    if Qeq_bool a 0 then rest else Lot.set_amount lot a :: rest
  end.

(** The state of a sale in progress on a queue of positive lots. *)
Definition sale_state (tx : Tx.t) (st : wstate) : Prop :=
  Forall lot_positive (lots st) /\ amount_to_sell st <= Tx.amount tx.

(** Every purchase is of a positive quantity. *)
Definition buys_positive (txs : list Tx.t) : Prop :=
  Forall (fun tx => Tx.type tx = TRANSACTION_BUY -> 0 < Tx.amount tx) txs.

(** Dates in non-decreasing order. *)
Definition ascending (dates : list Z) : Prop := StronglySorted Z.le dates.

(** The holding period and the term recorded in a gain agree with its
    dates. *)
Definition classified (g : Gain.t) : Prop :=
  Gain.holding_days g = (Gain.sell_date g - Gain.buy_date g)%Z /\
  Gain.term g = (if (365 <? Gain.holding_days g)%Z then Long else Short).

(** The lot was opened by a purchase of [txs]. *)
Definition lot_from (txs : list Tx.t) (l : Lot.t) : Prop :=
  exists b, In b txs /\ Tx.type b = TRANSACTION_BUY /\ Lot.date l = Tx.date b.

(** The gain matches a sale of [txs] with a lot opened by a purchase of
    [txs]. *)
Definition gain_from (txs : list Tx.t) (g : Gain.t) : Prop :=
  (exists s, In s txs /\ Tx.type s = TRANSACTION_SELL /\
             Gain.sell_date g = Tx.date s) /\
  (exists b, In b txs /\ Tx.type b = TRANSACTION_BUY /\
             Gain.buy_date g = Tx.date b).

(** Every open lot and every gain is accounted for by [txs]. *)
Definition traced (txs : list Tx.t) (l : list Lot.t) (r : list Gain.t) : Prop :=
  Forall (lot_from txs) l /\
  Forall (fun g => gain_from txs g /\ classified g) r.

(** Sum of a list of numbers. *)
Fixpoint Qsum (l : list Q) : Q :=
  match l with
  | [] => 0
  | x :: l' => x + Qsum l'
  end.

(** The total quantity held by the open lots. *)
Definition open_quantity (l : list Lot.t) : Q := Qsum (map Lot.amount l).

(** No rounding: the computed value is kept as it is. *)
Definition full_precision (x : Q) (ndigits : nat) : Q := x.

(** The rounding of the fields of a gain done by lines 97-104. *)
Definition presented (round_ : Q -> nat -> Q) (g : Gain.t) : Gain.t :=
  Gain.mk (Gain.sell_date g) (Gain.buy_date g)
          (round_ (Gain.amount g) 8%nat)
          (round_ (Gain.cost_basis g) 2%nat)
          (round_ (Gain.proceeds g) 2%nat)
          (round_ (Gain.gain g) 2%nat)
          (Gain.holding_days g) (Gain.term g) (Gain.tax_rate g)
          (round_ (Gain.tax_owed g) 2%nat).

(** The ledger as section 4.1 of the specification words it: the values are
    computed as in [calculate_gains] but kept at full precision, rounding
    being left to the presentation of the records. *)
Definition process_full_precision : list Tx.t -> result (list Gain.t) :=
  calculate_gains_with full_precision.

Definition fmap {A B : Type} (f : A -> B) (m : result A) : result B :=
  x <- m ;; Ok (f x).

(** A state of the ledger at full precision, seen after the gains [r0] and
    with its own gains rounded. *)
Definition rounded_state (round_ : Q -> nat -> Q) (r0 : list Gain.t)
           (st : wstate) : wstate :=
  mkw (amount_to_sell st) (lots st) (r0 ++ map (presented round_) (realized st)).

Definition rounded_pair (round_ : Q -> nat -> Q) (r0 : list Gain.t)
           (s : list Lot.t * list Gain.t) : list Lot.t * list Gain.t :=
  (fst s, r0 ++ map (presented round_) (snd s)).

(** The amounts recorded by the gains of [new]. *)
Definition amounts (new : list Gain.t) : list Q := map Gain.amount new.

(** The state of the loop of a sale of [tx] started on the queue [l0] with
    the gains [r0], at full precision: what the gains emitted so far have
    consumed is missing from the queue and from the amount to sell. *)
Definition sale_progress (tx : Tx.t) (l0 : list Lot.t) (r0 : list Gain.t)
           (st : wstate) : Prop :=
  Forall lot_positive (lots st) /\
  0 <= amount_to_sell st /\
  exists new,
    realized st = r0 ++ new /\
    Qsum (amounts new) + amount_to_sell st == Tx.amount tx /\
    Qsum (amounts new) + open_quantity (lots st) == open_quantity l0.

(** What a sale takes from the queue: the lots it consumes from, in order,
    each with the amount consumed from it.  [need] is what is still to sell.
    A front lot smaller than [need] is consumed whole, and [need] is reduced
    by it (line 110); the first lot that is not smaller ends the sale, and
    [need] is consumed from it. *)
Fixpoint matched (need : Q) (l : list Lot.t) : list (Lot.t * Q) :=
  match l with
  | [] => []
  | lot :: rest =>
    if Qltb 0 need then
      if Qltb (Lot.amount lot) need
      then (lot, Lot.amount lot) :: matched (need - Lot.amount lot) rest
      else [(lot, need)]
    else []
  end.

(** The queue that such a sale leaves: the lots consumed whole are gone, and
    the lot in which the sale ends keeps what is not consumed from it, or is
    gone as well when nothing is left of it. *)
Fixpoint left_open (need : Q) (l : list Lot.t) : list Lot.t :=
  match l with
  | [] => []
  | lot :: rest =>
    if Qltb 0 need then
      if Qltb (Lot.amount lot) need
      then left_open (need - Lot.amount lot) rest
      else
        let a := Lot.amount lot - need in
        if Qeq_bool a 0 then rest else Lot.set_amount lot a :: rest
    else l
  end.

(** The gain [g] is the record of the amount [snd m] consumed from the lot
    [fst m]: it has the date of the lot, and the amount rounded to eight
    decimals. *)
Definition records (round_ : Q -> nat -> Q) (g : Gain.t) (m : Lot.t * Q)
  : Prop :=
  Gain.buy_date g = Lot.date (fst m) /\ Gain.amount g = round_ (snd m) 8%nat.

(** The four buckets of [summarize_gains]: by term, and by sign of the
    gain. *)
Definition term_eqb (a b : term_t) : bool :=
  match a, b with
  | Short, Short | Long, Long => true
  | _, _ => false
  end.

Definition in_bucket (t : term_t) (nonneg : bool) (g : Gain.t) : bool :=
  term_eqb (Gain.term g) t && Bool.eqb (Qle_bool 0 (Gain.gain g)) nonneg.

Definition bucket (t : term_t) (nonneg : bool) (gs : list Gain.t) : Q :=
  Qsum (map Gain.gain (filter (in_bucket t nonneg) gs)).

(** The net of the four buckets, and the sum of the two loss buckets. *)
Definition net_of (gs : list Gain.t) : Q :=
  bucket Short true gs + bucket Long true gs +
  bucket Short false gs + bucket Long false gs.

Definition losses_of (gs : list Gain.t) : Q :=
  bucket Short false gs + bucket Long false gs.

Section Observation.

Variable round_ : Q -> nat -> Q.

(** The states through which the [while] loop of a sale passes, from one
    test of its condition to a later one. *)
Inductive while_reach (tx : Tx.t) : wstate -> wstate -> Prop :=
| reach_here (st : wstate) : while_reach tx st st
| reach_step (st st1 st2 : wstate) :
    while_cond st = true -> while_body round_ tx st = Ok st1 ->
    while_reach tx st1 st2 -> while_reach tx st st2.

(** [observed txs s q]: the queue of open lots is [q] at some point of the
    run of the [for] loop over [txs] started in [s], either between two
    transactions (or at the very start or end), or at a test of the [while]
    condition in the course of a sale. *)
Inductive observed : list Tx.t -> list Lot.t * list Gain.t -> list Lot.t -> Prop :=
| obs_now (txs : list Tx.t) (s : list Lot.t * list Gain.t) :
    observed txs s (fst s)
| obs_sale (tx : Tx.t) (txs : list Tx.t) (s : list Lot.t * list Gain.t)
           (st : wstate) :
    Tx.type tx = TRANSACTION_SELL ->
    while_reach tx (mkw (Tx.amount tx) (fst s) (snd s)) st ->
    observed (tx :: txs) s (lots st)
| obs_later (tx : Tx.t) (txs : list Tx.t) (s s' : list Lot.t * list Gain.t)
            (q : list Lot.t) :
    for_body round_ tx s = Ok s' -> observed txs s' q ->
    observed (tx :: txs) s q.

End Observation.

(** ** The program on a store of objects

    In Python the transactions, the lots and the gains are dictionaries
    reached through references, and the three lists are objects too.  The
    module below runs the same program on a store of objects: the reads of
    the program are loads, [lots.append], [realized.append], [lots.pop(0)]
    and [lot['amount'] -= ...] are writes to the objects they mutate, and a
    new dictionary or list is a new object of the store. *)

Module Heap.

Definition addr : Type := nat.

Inductive obj : Type :=
| TxD (tx : Tx.t)
| LotD (lot : Lot.t)
| GainD (g : Gain.t)
| ListO (items : list addr).

(** The object of address [a] is the [a]-th of the store; a new object goes
    to the end. *)
Definition store : Type := list obj.

Fixpoint update (h : store) (a : addr) (o : obj) : store :=
  match h, a with
  | [], _ => []
  | _ :: h', O => o :: h'
  | x :: h', S a' => x :: update h' a' o
  end.

(** A computation on the store; the store is also returned when an exception
    is raised. *)
Definition M (A : Type) : Type := store -> result A * store.

Definition ret {A : Type} (a : A) : M A := fun h => (Ok a, h).

Definition lift {A : Type} (r : result A) : M A := fun h => (r, h).

Definition mbind {A B : Type} (m : M A) (k : A -> M B) : M B :=
  fun h =>
    match m h with
    | (Ok a, h') => k a h'
    | (Raise e, h') => (Raise e, h')
    | (Timeout, h') => (Timeout, h')
    end.

Notation "x <~ m ;; k" := (mbind m (fun x => k))
  (at level 61, m at next level, right associativity).

Notation "m ;;; k" := (mbind m (fun _ => k))
  (at level 61, right associativity).

Definition alloc (o : obj) : M addr :=
  fun h => (Ok (List.length h), h ++ [o]).

Definition load (a : addr) : M obj :=
  fun h =>
    match nth_error h a with
    | Some o => (Ok o, h)
    | None => (Raise TypeError, h)
    end.

Definition write (a : addr) (o : obj) : M unit :=
  fun h => (Ok tt, update h a o).

Definition load_tx (a : addr) : M Tx.t :=
  o <~ load a ;;
  match o with TxD tx => ret tx | _ => lift (Raise TypeError) end.

Definition load_lot (a : addr) : M Lot.t :=
  o <~ load a ;;
  match o with LotD l => ret l | _ => lift (Raise TypeError) end.

Definition load_gain (a : addr) : M Gain.t :=
  o <~ load a ;;
  match o with GainD g => ret g | _ => lift (Raise TypeError) end.

Definition load_list (a : addr) : M (list addr) :=
  o <~ load a ;;
  match o with ListO l => ret l | _ => lift (Raise TypeError) end.

(** [l.append(x)]. *)
Definition append (l x : addr) : M unit :=
  items <~ load_list l ;; write l (ListO (items ++ [x])).

(** [l.pop(0)]. *)
Definition pop0 (l : addr) : M unit :=
  items <~ load_list l ;;
  match items with
  | [] => lift (Raise IndexError)
  | _ :: items' => write l (ListO items')
  end.

Section Ledger.

(** The references held by the variables [lots] and [realized]. *)
Variables lots realized : addr.

(** Line 77. *)
Definition while_cond (amount_to_sell : Q) : M bool :=
  items <~ load_list lots ;;
  ret (Qltb 0 amount_to_sell && negb (List.length items =? 0)%nat).

(** Lines 78-110, from the reference [tx] and the values of the variables
    set by lines 73-75; the new value of [amount_to_sell] is returned. *)
Definition while_body (tx : addr) (sell_price : Q) (sell_date : Z)
           (sell_fees : Q) (amount_to_sell : Q) : M Q :=
  items <~ load_list lots ;;
  match items with
  | [] => lift (Raise IndexError)
  | lot :: _ =>
    l <~ load_lot lot ;;
    let amount_from_lot := py_min amount_to_sell (Lot.amount l) in
    let cost_basis := amount_from_lot * Lot.price l in
    let proceeds := amount_from_lot * sell_price in
    let gain := proceeds - cost_basis in
    t <~ load_tx tx ;;
    sell_share <~ lift (py_div amount_from_lot (Tx.amount t)) ;;
    let gain := gain - sell_fees * sell_share in
    lot_share <~ lift (py_div amount_from_lot (Lot.amount l)) ;;
    let gain := gain - Lot.fees l * lot_share in
    let holding_period_days := (sell_date - Lot.date l)%Z in
    let long_term := (365 <? holding_period_days)%Z in
    let tax_rate :=
      if long_term then LONG_TERM_TAX_RATE else SHORT_TERM_TAX_RATE in
    let tax_owed := if Qltb 0 gain then gain * tax_rate else 0 in
    g <~ alloc (GainD (Gain.mk sell_date (Lot.date l)
                               (py_round amount_from_lot 8)
                               (py_round cost_basis 2)
                               (py_round proceeds 2)
                               (py_round gain 2)
                               holding_period_days
                               (if long_term then Long else Short)
                               tax_rate
                               (py_round tax_owed 2))) ;;
    append realized g ;;;
    l1 <~ load_lot lot ;;
    write lot (LotD (Lot.set_amount l1 (Lot.amount l1 - amount_from_lot))) ;;;
    l2 <~ load_lot lot ;;
    (if Qeq_bool (Lot.amount l2) 0 then pop0 lots else ret tt) ;;;
    ret (amount_to_sell - amount_from_lot)
  end.

(** Lines 77-110, for at most [fuel] tests of the condition. *)
Fixpoint while_loop (fuel : nat) (tx : addr) (sell_price : Q) (sell_date : Z)
         (sell_fees : Q) (amount_to_sell : Q) : M unit :=
  match fuel with
  | O => lift Timeout
  | S fuel' =>
    c <~ while_cond amount_to_sell ;;
    if c then
      amount_to_sell' <~
        while_body tx sell_price sell_date sell_fees amount_to_sell ;;
      while_loop fuel' tx sell_price sell_date sell_fees amount_to_sell'
    else ret tt
  end.

(** Lines 64-110. *)
Definition for_body (tx : addr) : M unit :=
  t <~ load_tx tx ;;
  if String.eqb (Tx.type t) TRANSACTION_BUY then
    lot <~ alloc (LotD (Lot.mk (Tx.amount t) (Tx.price t) (Tx.date t)
                               (Tx.fees t))) ;;
    append lots lot
  else if String.eqb (Tx.type t) TRANSACTION_SELL then
    items <~ load_list lots ;;
    while_loop (List.length items + 2) tx (Tx.price t) (Tx.date t) (Tx.fees t)
               (Tx.amount t)
  else ret tt.

(** Line 63: the iteration over the list [transactions], from index [i] on,
    for at most [fuel] steps of the iterator. *)
Fixpoint for_loop (fuel : nat) (transactions : addr) (i : nat) : M unit :=
  match fuel with
  | O => lift Timeout
  | S fuel' =>
    items <~ load_list transactions ;;
    match nth_error items i with
    | None => ret tt
    | Some tx => for_body tx ;;; for_loop fuel' transactions (S i)
    end
  end.

End Ledger.

(** Lines 59-112; the reference to the list [realized] is returned. *)
Definition calculate_gains (transactions : addr) : M addr :=
  lots <~ alloc (ListO []) ;;
  realized <~ alloc (ListO []) ;;
  items <~ load_list transactions ;;
  for_loop lots realized (List.length items + 1) transactions 0 ;;;
  ret realized.

(** Lines 119-133, over the items of the list [gains]. *)
Fixpoint summarize_loop (items : list addr) (a : totals) : M totals :=
  match items with
  | [] => ret a
  | g :: items' =>
    r <~ load_gain g ;; summarize_loop items' (summarize_body a r)
  end.

(** Lines 116-137. *)
Definition summarize_gains (gains : addr) : M summary :=
  items <~ load_list gains ;;
  a <~ summarize_loop items (mkt 0 0 0 0 0) ;;
  let net_gain := st_gain a + lt_gain a + st_loss a + lt_loss a in
  let net_loss := st_loss a + lt_loss a in
  let deductible_loss :=
    if Qltb net_gain 0
    then py_min (Qabs net_loss) MAX_CAPITAL_LOSS_DEDUCTION
    else 0 in
  ret (mks a net_gain net_loss deductible_loss).

(** The transactions of a list of the store, and the gains of a list of the
    store. *)
Fixpoint read_all {A : Type} (get : obj -> option A) (h : store)
         (items : list addr) : option (list A) :=
  match items with
  | [] => Some []
  | a :: items' =>
    match nth_error h a with
    | Some o =>
      match get o, read_all get h items' with
      | Some x, Some xs => Some (x :: xs)
      | _, _ => None
      end
    | None => None
    end
  end.

Definition read_list {A : Type} (get : obj -> option A) (h : store)
           (a : addr) : option (list A) :=
  match nth_error h a with
  | Some (ListO items) => read_all get h items
  | _ => None
  end.

Definition as_tx (o : obj) : option Tx.t :=
  match o with TxD t => Some t | _ => None end.

Definition as_gain (o : obj) : option Gain.t :=
  match o with GainD g => Some g | _ => None end.

Definition as_lot (o : obj) : option Lot.t :=
  match o with LotD l => Some l | _ => None end.

(** The objects that exist in [h] are the same in [h']. *)
Definition unchanged (h h' : store) : Prop :=
  forall a o, nth_error h a = Some o -> nth_error h' a = Some o.

(** An address that the run on [h0] may write to: not one of [h0], and not
    the list of the open lots. *)
Definition fresh (h0 : store) (lots : addr) (a : addr) : Prop :=
  (List.length h0 <= a)%nat /\ a <> lots.

(** The stores of a run started on [h0]: the objects of [h0] are as they
    were, the lists [lots] and [realized] are new objects, and the list of
    the open lots holds new objects only. *)
Definition owned (h0 : store) (lots realized : addr) (h : store) : Prop :=
  unchanged h0 h /\
  (List.length h0 <= lots)%nat /\ (lots < List.length h)%nat /\
  fresh h0 lots realized /\
  exists items,
    nth_error h lots = Some (ListO items) /\ Forall (fresh h0 lots) items.

(** [m], run on a store of the run, ends on a store of the run, and returns
    only values that satisfy [Q]. *)
Definition safe {A : Type} (h0 : store) (lots realized : addr) (m : M A)
           (Q : A -> Prop) : Prop :=
  forall h,
    owned h0 lots realized h ->
    owned h0 lots realized (snd (m h)) /\
    (forall a, fst (m h) = Ok a -> Q a).

(** [h] represents the state of the ledger made of the open lots [ls] and
    of the gains [rs]: the two lists of the run hold references to objects
    with these values, and the lots are distinct new objects. *)
Definition rep (h0 : store) (lots realized : addr) (h : store)
           (ls : list Lot.t) (rs : list Gain.t) : Prop :=
  unchanged h0 h /\
  lots <> realized /\
  (List.length h0 <= lots)%nat /\ (List.length h0 <= realized)%nat /\
  exists la ra,
    nth_error h lots = Some (ListO la) /\
    nth_error h realized = Some (ListO ra) /\
    read_all as_lot h la = Some ls /\
    read_all as_gain h ra = Some rs /\
    NoDup la /\
    Forall (fun a => (List.length h0 <= a)%nat) la.

End Heap.

(** ** Loading the transactions (lines 28-56)

    [load_transactions] reads the rows of the file with [csv.DictReader],
    builds a transaction from each row and sorts the transactions by date.
    The rows are taken as they come out of the reader: dictionaries with a
    key for every column of the heading line.  The value of a key is the
    text of the cell, or [None] where the line of the file is shorter than
    the heading (the [restval] of the reader); a key is missing from a row
    only when the heading line itself lacks the column, and it is then
    missing from every row.  What [datetime.strptime], [float] and
    [str.upper] make of a text is left to three parameters: a text that
    [strptime] or [float] rejects gives no value, and the call raises
    [ValueError]; on [None] the first two raise [TypeError], and [None] has
    no method [upper]. *)

Module Load.

Definition DATE_HEADER : string := "DATE".
Definition TRANSACTION_TYPE_HEADER : string := "TYPE".
Definition AMOUNT_BITCOIN_HEADER : string := "AMT-BTC".
Definition PRICE_DOLLARS_HEADER : string := "PRICE".
Definition FEES_HEADER : string := "FEE".
Definition DATE_FMT_STRING : string := "%m-%d-%YYYY".

(** A cell of a row: its text, or [None] where the line has no such cell. *)
Definition cell : Type := option string.

(** A row: the dictionary that the reader yields for a line of the file. *)
Definition row : Type := list (string * cell).

Fixpoint lookup (key : string) (r : row) : option cell :=
  match r with
  | [] => None
  | (k, v) :: r' => if String.eqb k key then Some v else lookup key r'
  end.

Inductive load_exn : Type :=
| KeyError (key : string)
| ValueError
| TypeError
| AttributeError.

(** A value, or the exception raised. *)
Inductive loaded (A : Type) : Type :=
| Loaded (a : A)
| Failed (e : load_exn).

Arguments Loaded {A} a.
Arguments Failed {A} e.

Definition lbind {A B : Type} (m : loaded A) (k : A -> loaded B) : loaded B :=
  match m with
  | Loaded a => k a
  | Failed e => Failed e
  end.

Notation "x <-- m ;; k" := (lbind m (fun x => k))
  (at level 61, m at next level, right associativity).

(** [row[key]]. *)
Definition subscript (r : row) (key : string) : loaded cell :=
  match lookup key r with
  | Some v => Loaded v
  | None => Failed (KeyError key)
  end.

(** The value of a library parser, or [ValueError]. *)
Definition parsed {A : Type} (v : option A) : loaded A :=
  match v with
  | Some a => Loaded a
  | None => Failed ValueError
  end.

(** [sorted(l, key=key)]: the sort of Python is stable, and so is this
    insertion sort; an element goes before the first element whose key is
    not smaller than its own. *)
Fixpoint insert {A : Type} (key : A -> Z) (x : A) (l : list A) : list A :=
  match l with
  | [] => [x]
  | y :: l' =>
    if (key x <=? key y)%Z then x :: y :: l' else y :: insert key x l'
  end.

Fixpoint sorted {A : Type} (key : A -> Z) (l : list A) : list A :=
  match l with
  | [] => []
  | x :: l' => insert key x (sorted key l')
  end.

Section Parsers.

(** [datetime.strptime(text, format)] as a day number, [float(text)] and
    [text.upper()]. *)
Variable strptime : string -> string -> option Z.
Variable float : string -> option Q.
Variable upper : string -> string.

(** Lines 39-40; [strptime] raises [TypeError] when it is not given a
    text. *)
Definition parse_date (date_str : cell) : loaded Z :=
  match date_str with
  | Some s => parsed (strptime s DATE_FMT_STRING)
  | None => Failed TypeError
  end.

(** [c.upper()] (line 50): [None] has no such attribute. *)
Definition py_upper (c : cell) : loaded string :=
  match c with
  | Some s => Loaded (upper s)
  | None => Failed AttributeError
  end.

(** [float(c)] (lines 51-53), which raises [TypeError] on [None]. *)
Definition py_float (c : cell) : loaded Q :=
  match c with
  | Some s => parsed (float s)
  | None => Failed TypeError
  end.

(** Lines 48-54: the values of the dictionary are computed in the order in
    which they are written. *)
Definition build_tx (r : row) : loaded Tx.t :=
  date_str <-- subscript r DATE_HEADER ;;
  date <-- parse_date date_str ;;
  type_str <-- subscript r TRANSACTION_TYPE_HEADER ;;
  type <-- py_upper type_str ;;
  amount_str <-- subscript r AMOUNT_BITCOIN_HEADER ;;
  amount <-- py_float amount_str ;;
  price_str <-- subscript r PRICE_DOLLARS_HEADER ;;
  price <-- py_float price_str ;;
  fees_str <-- subscript r FEES_HEADER ;;
  fees <-- py_float fees_str ;;
  Loaded (Tx.mk date type amount price fees).

(** Lines 47-55: the loop over the rows, appending to [transactions]. *)
Fixpoint read_rows (rows : list row) (transactions : list Tx.t)
  : loaded (list Tx.t) :=
  match rows with
  | [] => Loaded transactions
  | r :: rows' =>
    tx <-- build_tx r ;; read_rows rows' (transactions ++ [tx])
  end.

(** Lines 43-56, from the rows of the file. *)
Definition load_transactions (rows : list row) : loaded (list Tx.t) :=
  transactions <-- read_rows rows [] ;;
  Loaded (sorted Tx.date transactions).

(** The row has a text in each of the five columns, and its date, amount,
    price and fee are texts that the parsers accept. *)
Definition row_ok (r : row) : Prop :=
  exists date_str type_str amount_str price_str fees_str date amount price fees,
    lookup DATE_HEADER r = Some (Some date_str) /\
    lookup TRANSACTION_TYPE_HEADER r = Some (Some type_str) /\
    lookup AMOUNT_BITCOIN_HEADER r = Some (Some amount_str) /\
    lookup PRICE_DOLLARS_HEADER r = Some (Some price_str) /\
    lookup FEES_HEADER r = Some (Some fees_str) /\
    strptime date_str DATE_FMT_STRING = Some date /\
    float amount_str = Some amount /\
    float price_str = Some price /\
    float fees_str = Some fees.

End Parsers.

(** The elements of [l] whose key is [d], in the order of [l]. *)
Definition with_key {A : Type} (key : A -> Z) (d : Z) (l : list A) : list A :=
  filter (fun x => (key x =? d)%Z) l.

(** A text of decimal digits as a number; the parser of the examples. *)
Fixpoint digits_value (s : string) (acc : Z) : option Z :=
  match s with
  | EmptyString => Some acc
  | String c s' =>
    let n := Ascii.nat_of_ascii c in
    if ((48 <=? n) && (n <=? 57))%nat
    then digits_value s' (10 * acc + Z.of_nat (n - 48))%Z
    else None
  end.

Definition read_number (s : string) : option Z :=
  match s with
  | EmptyString => None
  | _ => digits_value s 0%Z
  end.

(** The row of a line with its five cells. *)
Definition example_row (date type amount price fee : string) : row :=
  [(DATE_HEADER, Some date); (TRANSACTION_TYPE_HEADER, Some type);
   (AMOUNT_BITCOIN_HEADER, Some amount); (PRICE_DOLLARS_HEADER, Some price);
   (FEES_HEADER, Some fee)].

(** The row of a line that ends after its date. *)
Definition short_row (date : string) : row :=
  [(DATE_HEADER, Some date); (TRANSACTION_TYPE_HEADER, None);
   (AMOUNT_BITCOIN_HEADER, None); (PRICE_DOLLARS_HEADER, None);
   (FEES_HEADER, None)].

End Load.

(** * Facts about the primitives *)

Lemma Qltb_lt (a b : Q) : Qltb a b = true <-> a < b.
Proof.
  unfold Qltb. rewrite negb_true_iff.
  split; intro H.
  - apply Qnot_le_lt. intro Hle. apply Qle_bool_iff in Hle. congruence.
  - destruct (Qle_bool b a) eqn:E; [|reflexivity].
    apply Qle_bool_iff in E. exfalso. now apply (Qlt_not_le a b).
Qed.

Lemma Qltb_ge (a b : Q) : Qltb a b = false <-> b <= a.
Proof.
  unfold Qltb. rewrite negb_false_iff. apply Qle_bool_iff.
Qed.

Lemma Qeq_bool_false (a b : Q) : Qeq_bool a b = false <-> ~ a == b.
Proof.
  split.
  - apply Qeq_bool_neq.
  - intro H. destruct (Qeq_bool a b) eqn:E; [|reflexivity].
    apply Qeq_bool_iff in E. contradiction.
Qed.

Lemma py_min_cases (a b : Q) :
  (b < a /\ py_min a b = b) \/ (a <= b /\ py_min a b = a).
Proof.
  unfold py_min. destruct (Qltb b a) eqn:E.
  - left. split; [now apply Qltb_lt | reflexivity].
  - right. split; [now apply Qltb_ge | reflexivity].
Qed.

Lemma py_min_le_l (a b : Q) : py_min a b <= a.
Proof. destruct (py_min_cases a b) as [[H ->]|[H ->]]; lra. Qed.

Lemma py_min_le_r (a b : Q) : py_min a b <= b.
Proof. destruct (py_min_cases a b) as [[H ->]|[H ->]]; lra. Qed.

Lemma py_min_pos (a b : Q) : 0 < a -> 0 < b -> 0 < py_min a b.
Proof. intros Ha Hb. destruct (py_min_cases a b) as [[H ->]|[H ->]]; lra. Qed.

Lemma py_div_ok (a b : Q) : ~ b == 0 -> py_div a b = Ok (a / b).
Proof.
  intro H. unfold py_div. now rewrite (proj2 (Qeq_bool_false b 0) H).
Qed.

Lemma py_div_inv (a b q : Q) : py_div a b = Ok q -> ~ b == 0 /\ q = a / b.
Proof.
  unfold py_div. destruct (Qeq_bool b 0) eqn:E; [discriminate|].
  intro H. injection H as <-. split; [now apply Qeq_bool_false | reflexivity].
Qed.

Lemma bind_Ok {A B : Type} (m : result A) (k : A -> result B) (b : B) :
  bind m k = Ok b -> exists a, m = Ok a /\ k a = Ok b.
Proof.
  destruct m as [a| |]; cbn; try discriminate. intro H. now exists a.
Qed.

(** * Facts about the [while] loop *)




Section LoopFacts.

Variable round_ : Q -> nat -> Q.

Lemma while_cond_true (st : wstate) :
    while_cond st = true <-> 0 < amount_to_sell st /\ lots st <> [].
Proof.
    unfold while_cond. rewrite andb_true_iff, Qltb_lt, negb_true_iff.
    destruct (lots st); cbn; intuition congruence.
Qed.

Lemma while_cond_false (st : wstate) :
    while_cond st = false <-> amount_to_sell st <= 0 \/ lots st = [].
Proof.
    unfold while_cond. rewrite andb_false_iff, Qltb_ge, negb_false_iff.
    destruct (lots st); cbn; intuition congruence.
Qed.

(** What a successful iteration does to the loop variables. *)
Lemma while_body_Ok (tx : Tx.t) (st st' : wstate) :
    while_body round_ tx st = Ok st' ->
    exists lot rest g,
      lots st = lot :: rest /\
      ~ Tx.amount tx == 0 /\ ~ Lot.amount lot == 0 /\
      amount_to_sell st' = amount_to_sell st - consumed st /\
      lots st' = queue_after st /\
      realized st' = realized st ++ [g] /\
      Gain.sell_date g = Tx.date tx /\
      Gain.buy_date g = Lot.date lot /\
      Gain.amount g = round_ (consumed st) 8 /\
      Gain.holding_days g = (Tx.date tx - Lot.date lot)%Z /\
      Gain.term g = (if (365 <? Tx.date tx - Lot.date lot)%Z then Long else Short).
Proof.
    unfold while_body, queue_after, consumed.
    destruct (lots st) as [|lot rest]; [discriminate|].
    intro H.
    apply bind_Ok in H. destruct H as (q1 & H1 & H).
    apply bind_Ok in H. destruct H as (q2 & H2 & H).
    apply py_div_inv in H1. apply py_div_inv in H2.
    injection H as <-. cbn [amount_to_sell lots realized Lot.amount Lot.set_amount].
    destruct H1 as [H1 ->], H2 as [H2 ->].
    eexists lot, rest, _.
    split; [reflexivity|]. split; [exact H1|]. split; [exact H2|].
    split; [reflexivity|]. split; [reflexivity|]. split; [reflexivity|].
    cbn. repeat split.
Qed.

(** An iteration raises only on a zero divisor. *)
Lemma while_body_returns (tx : Tx.t) (st : wstate) (lot : Lot.t) (rest : list Lot.t) :
    lots st = lot :: rest -> ~ Tx.amount tx == 0 -> ~ Lot.amount lot == 0 ->
    exists st', while_body round_ tx st = Ok st'.
Proof.
    intros Hl Ht Ha. unfold while_body. rewrite Hl.
    rewrite (py_div_ok _ _ Ht), (py_div_ok _ _ Ha). cbn [bind].
    eexists. reflexivity.
Qed.

(** The invariant rule of the loop. *)
Lemma while_loop_rule (P : wstate -> Prop) (tx : Tx.t) :
    (forall st st', P st -> while_cond st = true ->
                    while_body round_ tx st = Ok st' -> P st') ->
    forall fuel st st',
      P st -> while_loop round_ fuel tx st = Ok st' ->
      P st' /\ while_cond st' = false.
Proof.
    intros Hstep. induction fuel as [|fuel IH]; intros st st' HP H; cbn in H.
    - discriminate.
    - destruct (while_cond st) eqn:Hc.
      + apply bind_Ok in H. destruct H as (st1 & Hb & H).
        apply (IH st1); [|exact H]. now apply (Hstep st).
      + injection H as <-. now split.
Qed.

Lemma while_body_no_timeout (tx : Tx.t) (st : wstate) :
    while_body round_ tx st <> Timeout.
Proof.
    unfold while_body, py_div. destruct (lots st) as [|lot rest]; [discriminate|].
    destruct (Qeq_bool (Tx.amount tx) 0); [discriminate|].
    destruct (Qeq_bool (Lot.amount lot) 0); discriminate.
Qed.

(** A lot that is not exhausted by an iteration absorbed the whole of the
      amount still to sell. *)
Lemma queue_after_length (st : wstate) (lot : Lot.t) (rest : list Lot.t) :
    lots st = lot :: rest ->
    queue_after st = rest \/
    (queue_after st = Lot.set_amount lot (Lot.amount lot - consumed st) :: rest
     /\ consumed st = amount_to_sell st
     /\ amount_to_sell st < Lot.amount lot).
Proof.
    intro Hl. unfold queue_after, consumed. rewrite Hl.
    destruct (Qeq_bool _ 0) eqn:E; [now left|right].
    apply Qeq_bool_false in E.
    destruct (py_min_cases (amount_to_sell st) (Lot.amount lot)) as [[H Hm]|[H Hm]];
      rewrite Hm in *.
    - exfalso. apply E. ring.
    - repeat split. apply Qle_lteq in H. destruct H as [H|H]; [exact H|].
      exfalso. apply E. rewrite H. ring.
Qed.

(** The budget given to the loop by [for_body] is never exhausted: every
      iteration but the last removes a lot from the queue. *)
Lemma while_loop_no_timeout (tx : Tx.t) :
    forall fuel st,
      (List.length (lots st) + 2 <= fuel)%nat ->
      while_loop round_ fuel tx st <> Timeout.
Proof.
    induction fuel as [|fuel IH]; intros st Hf; [lia|]. cbn.
    destruct (while_cond st) eqn:Hc; [|discriminate].
    destruct (while_body round_ tx st) as [st'|e|] eqn:Hb; cbn.
    - destruct (while_body_Ok _ _ _ Hb)
        as (lot & rest & g & Hl & _ & _ & Hn & Hq & _).
      destruct (queue_after_length st lot rest Hl) as [Hr|(Hr & Hm & _)].
      + apply IH. rewrite Hq, Hr. rewrite Hl in Hf. cbn in Hf. lia.
      + destruct fuel as [|fuel]; [rewrite Hl in Hf; cbn in Hf; lia|].
        cbn. replace (while_cond st') with false; [discriminate|].
        symmetry. apply while_cond_false. left. rewrite Hn, Hm. lra.
    - discriminate.
    - now apply while_body_no_timeout in Hb.
Qed.

(** ** Queues of positive lots *)


Lemma queue_after_positive (st : wstate) :
    Forall lot_positive (lots st) -> Forall lot_positive (queue_after st).
Proof.
    intro Hp. destruct (lots st) as [|lot rest] eqn:Hl.
    - unfold queue_after. now rewrite Hl.
    - apply Forall_cons_iff in Hp. destruct Hp as [Hlot Hrest].
      destruct (queue_after_length st lot rest Hl) as [->|(-> & Hm & Hlt)];
        [exact Hrest|].
      constructor; [|exact Hrest].
      unfold lot_positive in *. cbn. rewrite Hm. lra.
Qed.

Lemma consumed_positive (st : wstate) :
    Forall lot_positive (lots st) -> while_cond st = true -> 0 < consumed st.
Proof.
    intros Hp Hc. apply while_cond_true in Hc. destruct Hc as [Hn Hl].
    unfold consumed. destruct (lots st) as [|lot rest]; [congruence|].
    apply Forall_cons_iff in Hp. now apply py_min_pos.
Qed.

Lemma sale_state_step (tx : Tx.t) (st st' : wstate) :
    sale_state tx st -> while_cond st = true ->
    while_body round_ tx st = Ok st' -> sale_state tx st'.
Proof.
    intros [Hp Hle] Hc Hb.
    destruct (while_body_Ok _ _ _ Hb) as (lot & rest & g & Hl & _ & _ & Hn & Hq & _).
    split.
    - rewrite Hq. now apply queue_after_positive.
    - rewrite Hn. pose proof (consumed_positive st Hp Hc). lra.
Qed.

Lemma sale_state_returns (tx : Tx.t) (st : wstate) :
    sale_state tx st -> while_cond st = true ->
    exists st', while_body round_ tx st = Ok st'.
Proof.
    intros [Hp Hle] Hc. apply while_cond_true in Hc. destruct Hc as [Hn Hl].
    destruct (lots st) as [|lot rest] eqn:E; [congruence|].
    apply Forall_cons_iff in Hp. destruct Hp as [Hlot _]. unfold lot_positive in Hlot.
    apply (while_body_returns tx st lot rest E); intro H; rewrite H in *; lra.
Qed.

(** On positive lots the loop returns. *)
Lemma while_loop_returns (tx : Tx.t) :
    forall fuel st,
      sale_state tx st -> (List.length (lots st) + 2 <= fuel)%nat ->
      exists st', while_loop round_ fuel tx st = Ok st'.
Proof.
    intros fuel st Hs Hf.
    pose proof (while_loop_no_timeout tx fuel st Hf) as Hnt. clear Hf.
    revert st Hs Hnt. induction fuel as [|fuel IH]; intros st Hs Hnt; cbn in *.
    - congruence.
    - destruct (while_cond st) eqn:Hc; [|now exists st].
      destruct (sale_state_returns tx st Hs Hc) as [st1 Hb].
      rewrite Hb in *. cbn in *. apply IH; [|exact Hnt].
      now apply (sale_state_step tx st).
Qed.

End LoopFacts.

(** * Facts about the [for] loop *)

Section RunFacts.

Variable round_ : Q -> nat -> Q.

Lemma buy_not_sell : String.eqb TRANSACTION_SELL TRANSACTION_BUY = false.
Proof. reflexivity. Qed.

(** The three cases of [for_body]. *)
Lemma for_body_buy (tx : Tx.t) (l : list Lot.t) (r : list Gain.t) :
  Tx.type tx = TRANSACTION_BUY ->
  for_body round_ tx (l, r) =
  Ok (l ++ [Lot.mk (Tx.amount tx) (Tx.price tx) (Tx.date tx) (Tx.fees tx)], r).
Proof. intro H. unfold for_body. rewrite H. reflexivity. Qed.

Lemma for_body_sale (tx : Tx.t) (l : list Lot.t) (r : list Gain.t) :
  Tx.type tx = TRANSACTION_SELL ->
  for_body round_ tx (l, r) =
  (st <- while_loop round_ (List.length l + 2) tx (mkw (Tx.amount tx) l r) ;;
   Ok (lots st, realized st)).
Proof. intro H. unfold for_body. rewrite H. reflexivity. Qed.

Lemma for_body_other (tx : Tx.t) (s : list Lot.t * list Gain.t) :
  Tx.type tx <> TRANSACTION_BUY -> Tx.type tx <> TRANSACTION_SELL ->
  for_body round_ tx s = Ok s.
Proof.
  intros Hb Hs. unfold for_body. destruct s as [l r].
  apply String.eqb_neq in Hb, Hs. now rewrite Hb, Hs.
Qed.

Lemma for_body_cases (tx : Tx.t) :
  Tx.type tx = TRANSACTION_BUY \/ Tx.type tx = TRANSACTION_SELL \/
  (Tx.type tx <> TRANSACTION_BUY /\ Tx.type tx <> TRANSACTION_SELL).
Proof.
  destruct (String.eqb_spec (Tx.type tx) TRANSACTION_BUY); [now left|].
  destruct (String.eqb_spec (Tx.type tx) TRANSACTION_SELL); [now right; left|].
  now right; right.
Qed.

Lemma for_loop_app (txs1 txs2 : list Tx.t) :
  forall s,
    for_loop round_ (txs1 ++ txs2) s =
    (s' <- for_loop round_ txs1 s ;; for_loop round_ txs2 s').
Proof.
  induction txs1 as [|tx txs1 IH]; intro s; cbn; [reflexivity|].
  destruct (for_body round_ tx s); cbn; auto.
Qed.

Lemma while_reach_rule (P : wstate -> Prop) (tx : Tx.t) :
  (forall st st', P st -> while_cond st = true ->
                  while_body round_ tx st = Ok st' -> P st') ->
  forall st st', P st -> while_reach round_ tx st st' -> P st'.
Proof.
  intros Hstep st st' HP Hr. induction Hr; eauto.
Qed.

(** A transaction processed on a queue of positive lots is processed to the
    end and leaves a queue of positive lots. *)
Lemma for_body_positive (tx : Tx.t) (l : list Lot.t) (r : list Gain.t) :
  (Tx.type tx = TRANSACTION_BUY -> 0 < Tx.amount tx) ->
  Forall lot_positive l ->
  exists l' r', for_body round_ tx (l, r) = Ok (l', r') /\ Forall lot_positive l'.
Proof.
  intros Hbuy Hl.
  destruct (for_body_cases tx) as [Hb|[Hs|[Hb Hs]]].
  - rewrite (for_body_buy _ _ _ Hb). eexists _, _. split; [reflexivity|].
    apply Forall_app. split; [exact Hl|]. constructor; [|constructor].
    now apply Hbuy.
  - rewrite (for_body_sale _ _ _ Hs).
    assert (Hst : sale_state tx (mkw (Tx.amount tx) l r)).
    { split; cbn; [exact Hl|lra]. }
    destruct (while_loop_returns round_ tx (List.length l + 2) _ Hst) as [st Hw];
      [cbn; lia|].
    rewrite Hw. cbn. eexists _, _. split; [reflexivity|].
    eapply (while_loop_rule round_ (sale_state tx) tx) in Hw;
      [apply Hw| apply sale_state_step | exact Hst].
  - rewrite (for_body_other _ _ Hb Hs). now eexists _, _.
Qed.

Lemma for_loop_positive (txs : list Tx.t) :
  buys_positive txs ->
  forall l r,
    Forall lot_positive l ->
    exists l' r', for_loop round_ txs (l, r) = Ok (l', r') /\ Forall lot_positive l'.
Proof.
  induction 1 as [|tx txs Htx Htxs IH]; intros l r Hl; cbn [for_loop].
  - now exists l, r.
  - destruct (for_body_positive tx l r Htx Hl) as (l1 & r1 & -> & Hl1).
    cbn [bind]. now apply IH.
Qed.

Lemma observed_positive (txs : list Tx.t) (s : list Lot.t * list Gain.t)
      (q : list Lot.t) :
  observed round_ txs s q ->
  buys_positive txs -> Forall lot_positive (fst s) -> Forall lot_positive q.
Proof.
  induction 1 as [txs s|tx txs s st Hs Hr|tx txs s s' q Hb Ho IH];
    intros Hbuys Hpos.
  - exact Hpos.
  - apply (while_reach_rule (sale_state tx) tx (sale_state_step round_ tx)) in Hr.
    + apply Hr.
    + split; cbn; [exact Hpos|lra].
  - apply Forall_cons_iff in Hbuys. destruct Hbuys as [Htx Hbuys].
    apply IH; [exact Hbuys|]. destruct s as [l r].
    destruct (for_body_positive tx l r Htx Hpos) as (l1 & r1 & E & Hl1).
    rewrite E in Hb. injection Hb as <-. exact Hl1.
Qed.

(** The final queue is among the observed ones. *)
Lemma observed_final (txs : list Tx.t) :
  forall s s', for_loop round_ txs s = Ok s' -> observed round_ txs s (fst s').
Proof.
  induction txs as [|tx txs IH]; intros s s' H; cbn in H.
  - injection H as <-. constructor.
  - apply bind_Ok in H. destruct H as (s1 & Hb & H).
    eapply obs_later; eauto.
Qed.

(** The run never exhausts the budget of a loop. *)
Lemma for_body_no_timeout (tx : Tx.t) (s : list Lot.t * list Gain.t) :
  for_body round_ tx s <> Timeout.
Proof.
  destruct s as [l r]. destruct (for_body_cases tx) as [Hb|[Hs|[Hb Hs]]].
  - now rewrite (for_body_buy _ _ _ Hb).
  - rewrite (for_body_sale _ _ _ Hs).
    pose proof (while_loop_no_timeout round_ tx (List.length l + 2)
                                      (mkw (Tx.amount tx) l r)) as H.
    destruct (while_loop round_ _ tx _); cbn [bind]; try discriminate.
    intros _. apply H; [cbn; lia|reflexivity].
  - now rewrite (for_body_other _ _ Hb Hs).
Qed.

Lemma for_loop_no_timeout (txs : list Tx.t) :
  forall s, for_loop round_ txs s <> Timeout.
Proof.
  induction txs as [|tx txs IH]; intro s; cbn [for_loop]; [discriminate|].
  pose proof (for_body_no_timeout tx s) as H.
  destruct (for_body round_ tx s); cbn [bind]; [apply IH|discriminate|exact H].
Qed.

End RunFacts.

(** The loop of a sale always ends: every iteration but the last removes a
    lot from the queue, so that one test of the condition per open lot and
    two more are enough, whatever the amounts (zero and negative ones too).
    A run of [calculate_gains] therefore returns its gains or raises an
    exception, on every input. *)
Theorem calculate_gains_no_timeout (txs : list Tx.t) :
  calculate_gains txs <> Timeout.
Proof.
  unfold calculate_gains, calculate_gains_with, ledger.
  pose proof (for_loop_no_timeout py_round txs ([], [])) as H.
  destruct (for_loop py_round txs ([], [])); cbn [bind];
    [discriminate|discriminate|].
  intros _. now apply H.
Qed.

(** ** The scenarios of the specification *)

(** A purchase of 1 at 10000 (fee 10) sold 151 days later at 15000
    (fee 15). *)
Example end_to_end_scenario :
  calculate_gains [buy 0 1 10000 10; sale 151 1 15000 15]
  = Ok [Gain.mk 151 0 1.00000000 10000.00 15000.00 4975.00 151 Short
                0.24 1194.00].
Proof. vm_compute. reflexivity. Qed.

(** Two purchases of 1 and a sale of 1.5 that spans both lots; half of the
    second lot stays open. *)
Example multi_lot_split_scenario :
  ledger py_round [buy 0 1 100 0; buy 366 1 200 0; sale 400 1.5 300 0]
  = Ok ([Lot.mk 0.5 200 366 0],
        [Gain.mk 400 0 1.00000000 100.00 300.00 200.00 400 Long 0.15 30.00;
         Gain.mk 400 366 0.50000000 100.00 150.00 50.00 34 Short 0.24 12.00]).
Proof. vm_compute. reflexivity. Qed.

(** * Properties of the ledger *)


(** * Order of the queue *)

Lemma ascending_app (a b : list Z) :
  ascending (a ++ b) <->
  ascending a /\ ascending b /\ (forall x y, In x a -> In y b -> (x <= y)%Z).
Proof.
  unfold ascending. induction a as [|x a IH]; cbn.
  - split.
    + intro H. repeat split; [constructor|exact H|contradiction].
    + now intros (_ & H & _).
  - split.
    + intro H. inversion H as [|? ? Hs Hf]; subst.
      apply IH in Hs. destruct Hs as (Ha & Hb & Hab).
      apply Forall_app in Hf. destruct Hf as [Hfa Hfb].
      repeat split; [now constructor|exact Hb|].
      intros u v [<-|Hu] Hv; [|now apply Hab].
      rewrite Forall_forall in Hfb. now apply Hfb.
    + intros (Ha & Hb & Hab). inversion Ha as [|? ? Hs Hf]; subst.
      constructor.
      * apply IH. repeat split; [exact Hs|exact Hb|]. intros; apply Hab; auto.
      * apply Forall_app. split; [exact Hf|].
        apply Forall_forall. intros v Hv. apply Hab; auto.
Qed.

Lemma ascending_drop (a b : list Z) (x : Z) :
  ascending (a ++ x :: b) -> ascending (a ++ b).
Proof.
  rewrite !ascending_app. intros (Ha & Hb & Hab).
  inversion Hb; subst. repeat split; auto. intros; apply Hab; cbn; auto.
Qed.

Lemma ascending_suffix (a b : list Z) : ascending (a ++ b) -> ascending b.
Proof. rewrite ascending_app. tauto. Qed.

Lemma ascending_prefix (a b : list Z) : ascending (a ++ b) -> ascending a.
Proof. rewrite ascending_app. tauto. Qed.

Section OrderFacts.

Variable round_ : Q -> nat -> Q.

(** An iteration leaves the dates of the queue as they are or drops the
    first. *)
Lemma queue_after_dates (st : wstate) (lot : Lot.t) (rest : list Lot.t) :
  lots st = lot :: rest ->
  map Lot.date (queue_after st) = map Lot.date rest \/
  map Lot.date (queue_after st) = map Lot.date (lots st).
Proof.
  intro Hl. destruct (queue_after_length st lot rest Hl) as [->|(-> & _)].
  - now left.
  - right. now rewrite Hl.
Qed.

(** The dates of the queue, followed by later dates, stay in order. *)
Lemma while_body_sorted (tx : Tx.t) (ds : list Z) (st st' : wstate) :
  ascending (map Lot.date (lots st) ++ ds) ->
  while_cond st = true -> while_body round_ tx st = Ok st' ->
  ascending (map Lot.date (lots st') ++ ds).
Proof.
  intros Ha _ Hb.
  destruct (while_body_Ok _ _ _ _ Hb) as (lot & rest & g & Hl & _ & _ & _ & Hq & _).
  rewrite Hq. destruct (queue_after_dates st lot rest Hl) as [->| ->].
  - rewrite Hl in Ha. cbn in Ha. now apply (ascending_drop []) in Ha.
  - exact Ha.
Qed.

Lemma for_body_sorted (tx : Tx.t) (ds : list Z) (l l' : list Lot.t)
      (r r' : list Gain.t) :
  ascending (map Lot.date l ++ Tx.date tx :: ds) ->
  for_body round_ tx (l, r) = Ok (l', r') ->
  ascending (map Lot.date l' ++ ds).
Proof.
  intros Ha Hf.
  destruct (for_body_cases tx) as [Hb|[Hs|[Hb Hs]]].
  - rewrite (for_body_buy _ _ _ _ Hb) in Hf. injection Hf as <- <-.
    now rewrite map_app, <- app_assoc.
  - rewrite (for_body_sale _ _ _ _ Hs) in Hf.
    apply bind_Ok in Hf. destruct Hf as (st & Hw & Hf). injection Hf as <- <-.
    apply ascending_drop in Ha.
    apply (while_loop_rule round_
             (fun st => ascending (map Lot.date (lots st) ++ ds)) tx) in Hw.
    + apply Hw.
    + intros; eapply while_body_sorted; eauto.
    + exact Ha.
  - rewrite (for_body_other _ _ _ Hb Hs) in Hf. injection Hf as <- <-.
    now apply ascending_drop in Ha.
Qed.

Lemma for_loop_sorted (txs : list Tx.t) (ds : list Z) :
  forall l r l' r',
    ascending (map Lot.date l ++ map Tx.date txs ++ ds) ->
    for_loop round_ txs (l, r) = Ok (l', r') ->
    ascending (map Lot.date l' ++ ds).
Proof.
  induction txs as [|tx txs IH]; intros l r l' r' Ha Hf; cbn [for_loop] in Hf.
  - injection Hf as <- <-. exact Ha.
  - apply bind_Ok in Hf. destruct Hf as ([l1 r1] & Hb & Hf).
    apply (IH l1 r1 l' r'); [|exact Hf].
    apply (for_body_sorted tx _ l l1 r r1); [exact Ha|exact Hb].
Qed.

Lemma observed_sorted (txs : list Tx.t) (s : list Lot.t * list Gain.t)
      (q : list Lot.t) :
  observed round_ txs s q ->
  ascending (map Lot.date (fst s) ++ map Tx.date txs) ->
  ascending (map Lot.date q).
Proof.
  induction 1 as [txs s|tx txs s st Hs Hr|tx txs s s' q Hb Ho IH]; intro Ha.
  - now apply ascending_prefix in Ha.
  - cbn [map] in Ha. apply ascending_drop in Ha.
    apply (while_reach_rule round_
             (fun st => ascending (map Lot.date (lots st) ++ map Tx.date txs)) tx)
      in Hr.
    + now apply ascending_prefix in Hr.
    + intros; eapply while_body_sorted; eauto.
    + exact Ha.
  - apply IH. destruct s as [l r], s' as [l' r'].
    apply (for_body_sorted tx _ l l' r r'); [exact Ha|exact Hb].
Qed.

(** The gains emitted by the loop of a sale are taken from the lots at the
    front of the queue, in the order of the queue. *)
Lemma while_loop_front (tx : Tx.t) (l0 : list Lot.t) (r0 : list Gain.t) :
  forall fuel st',
    while_loop round_ fuel tx (mkw (Tx.amount tx) l0 r0) = Ok st' ->
    exists new rest,
      realized st' = r0 ++ new /\
      map Lot.date l0 = map Gain.buy_date new ++ rest.
Proof.
  intros fuel st' Hw.
  apply (while_loop_rule round_
           (fun st => exists new,
                realized st = r0 ++ new /\
                (map Lot.date l0 = map Gain.buy_date new ++ map Lot.date (lots st)
                 \/ (amount_to_sell st <= 0 /\
                     exists rest, map Lot.date l0 = map Gain.buy_date new ++ rest)))
           tx) in Hw.
  - destruct Hw as [(new & Hr & [H|[_ [rest H]]]) _]; eauto.
  - clear. intros st st' (new & Hr & Hd) Hc Hb.
    destruct (while_body_Ok _ _ _ _ Hb)
      as (lot & rest & g & Hl & _ & _ & Hn & Hq & Hg & _ & Hbd & _).
    exists (new ++ [g]). split; [now rewrite Hg, Hr, app_assoc|].
    apply while_cond_true in Hc. destruct Hc as [Hpos _].
    destruct Hd as [Hd|[Hle _]]; [|lra].
    rewrite Hl in Hd. cbn [map] in Hd.
    rewrite map_app. cbn [map]. rewrite Hbd, <- app_assoc. cbn [app].
    destruct (queue_after_length st lot rest Hl) as [E|(E & Hm & _)];
      rewrite Hq, E.
    + now left.
    + right. split; [rewrite Hn, Hm; lra|]. exists (map Lot.date rest).
      now rewrite <- app_assoc.
  - exists []. split; [now rewrite app_nil_r|]. now left.
Qed.

Lemma for_body_front (tx : Tx.t) (l0 l1 : list Lot.t) (r0 r1 : list Gain.t) :
  for_body round_ tx (l0, r0) = Ok (l1, r1) ->
  exists new rest,
    r1 = r0 ++ new /\ map Lot.date l0 = map Gain.buy_date new ++ rest.
Proof.
  intro Hf. destruct (for_body_cases tx) as [Hb|[Hs|[Hb Hs]]].
  - rewrite (for_body_buy _ _ _ _ Hb) in Hf. injection Hf as <- <-.
    exists [], (map Lot.date l0). now rewrite app_nil_r.
  - rewrite (for_body_sale _ _ _ _ Hs) in Hf.
    apply bind_Ok in Hf. destruct Hf as (st & Hw & Hf). injection Hf as <- <-.
    now apply while_loop_front in Hw.
  - rewrite (for_body_other _ _ _ Hb Hs) in Hf. injection Hf as <- <-.
    exists [], (map Lot.date l0). now rewrite app_nil_r.
Qed.

End OrderFacts.

(** C4: on transactions sorted by date, the queue of open lots is in
    ascending order of acquisition date at every point of the run, and the
    gains emitted for a transaction are taken from the lots at the front of
    the queue in queue order, hence in ascending order of acquisition date
    (oldest lot first). *)
Theorem fifo_order (txs : list Tx.t) :
  ascending (map Tx.date txs) ->
  (forall q, observed py_round txs ([], []) q -> ascending (map Lot.date q)) /\
  (forall pre tx post l0 r0 l1 r1,
      txs = pre ++ tx :: post ->
      ledger py_round pre = Ok (l0, r0) ->
      for_body py_round tx (l0, r0) = Ok (l1, r1) ->
      exists new rest,
        r1 = r0 ++ new /\
        map Lot.date l0 = map Gain.buy_date new ++ rest /\
        ascending (map Gain.buy_date new)).
Proof.
  intro Ha. split.
  - intros q Ho. now apply (observed_sorted py_round txs ([], []) q Ho).
  - intros pre tx post l0 r0 l1 r1 -> Hpre Hf.
    destruct (for_body_front py_round tx l0 l1 r0 r1 Hf) as (new & rest & Hr & Hd).
    exists new, rest. repeat split; [exact Hr|exact Hd|].
    rewrite map_app in Ha.
    apply (for_loop_sorted py_round pre (map Tx.date (tx :: post)) [] [] l0 r0)
      in Hpre; [|exact Ha].
    rewrite Hd in Hpre. apply ascending_prefix in Hpre.
    now apply ascending_prefix in Hpre.
Qed.

(** * Holding period and term *)

Section TermFacts.

Variable round_ : Q -> nat -> Q.
Variable txs : list Tx.t.

Lemma queue_after_from (st : wstate) :
  Forall (lot_from txs) (lots st) -> Forall (lot_from txs) (queue_after st).
Proof.
  intro H. destruct (lots st) as [|lot rest] eqn:Hl.
  - unfold queue_after. rewrite Hl. constructor.
  - apply Forall_cons_iff in H. destruct H as [Hlot Hrest].
    destruct (queue_after_length st lot rest Hl) as [->|(-> & _)]; [exact Hrest|].
    constructor; [exact Hlot|exact Hrest].
Qed.

Lemma while_body_traced (tx : Tx.t) (st st' : wstate) :
  In tx txs -> Tx.type tx = TRANSACTION_SELL ->
  traced txs (lots st) (realized st) ->
  while_body round_ tx st = Ok st' ->
  traced txs (lots st') (realized st').
Proof.
  intros Hin Hs [Hl Hr] Hb.
  destruct (while_body_Ok _ _ _ _ Hb)
    as (lot & rest & g & El & _ & _ & _ & Hq & Hg & Hsd & Hbd & _ & Hh & Ht).
  split.
  - rewrite Hq. now apply queue_after_from.
  - rewrite Hg. apply Forall_app. split; [exact Hr|].
    constructor; [|constructor]. rewrite El in Hl.
    apply Forall_cons_iff in Hl. destruct Hl as [(b & Hb1 & Hb2 & Hb3) _].
    split; [split|split].
    + now exists tx.
    + exists b. rewrite Hbd. auto.
    + rewrite Hh, Hsd, Hbd. reflexivity.
    + rewrite Ht, Hh. reflexivity.
Qed.

Lemma for_body_traced (tx : Tx.t) (l l' : list Lot.t) (r r' : list Gain.t) :
  In tx txs -> traced txs l r ->
  for_body round_ tx (l, r) = Ok (l', r') -> traced txs l' r'.
Proof.
  intros Hin Ht Hf. destruct (for_body_cases tx) as [Hb|[Hs|[Hb Hs]]].
  - rewrite (for_body_buy _ _ _ _ Hb) in Hf. injection Hf as <- <-.
    destruct Ht as [Hl Hr]. split; [|exact Hr].
    apply Forall_app. split; [exact Hl|]. constructor; [|constructor].
    now exists tx.
  - rewrite (for_body_sale _ _ _ _ Hs) in Hf.
    apply bind_Ok in Hf. destruct Hf as (st & Hw & Hf). injection Hf as <- <-.
    apply (while_loop_rule round_
             (fun st => traced txs (lots st) (realized st)) tx) in Hw.
    + apply Hw.
    + intros st1 st2 H1 _ H2. now apply (while_body_traced tx st1).
    + exact Ht.
  - rewrite (for_body_other _ _ _ Hb Hs) in Hf. now injection Hf as <- <-.
Qed.

Lemma for_loop_traced (rest : list Tx.t) :
  incl rest txs ->
  forall l r l' r',
    traced txs l r -> for_loop round_ rest (l, r) = Ok (l', r') -> traced txs l' r'.
Proof.
  induction rest as [|tx rest IH]; intros Hi l r l' r' Ht Hf; cbn [for_loop] in Hf.
  - now injection Hf as <- <-.
  - apply bind_Ok in Hf. destruct Hf as ([l1 r1] & Hb & Hf).
    apply (IH (fun x Hx => Hi x (or_intror Hx)) l1 r1 l' r'); [|exact Hf].
    apply (for_body_traced tx l l1 r r1); [|exact Ht|exact Hb].
    apply Hi. now left.
Qed.

End TermFacts.

(** C5: every gain returned by [calculate_gains] carries the date of a sale
    and the date of the purchase that opened the consumed lot, its holding
    period is the difference of the two in days, and its term is [Long]
    exactly when the holding period exceeds 365 days: 365 days is [Short],
    366 days is [Long]. *)
Theorem holding_period_and_term (txs : list Tx.t) (gs : list Gain.t) :
  calculate_gains txs = Ok gs ->
  forall g, In g gs ->
    gain_from txs g /\
    Gain.holding_days g = (Gain.sell_date g - Gain.buy_date g)%Z /\
    (Gain.term g = Long <-> (Gain.holding_days g > 365)%Z) /\
    (Gain.holding_days g = 365%Z -> Gain.term g = Short) /\
    (Gain.holding_days g = 366%Z -> Gain.term g = Long).
Proof.
  unfold calculate_gains, calculate_gains_with, ledger. intro H.
  apply bind_Ok in H. destruct H as ([l r] & Hf & H). injection H as <-.
  apply (for_loop_traced py_round txs txs (incl_refl txs) [] [] l r) in Hf;
    [|split; constructor].
  destruct Hf as [_ Hr]. rewrite Forall_forall in Hr.
  intros g Hg. destruct (Hr g Hg) as [Hfrom [Hh Ht]].
  split; [exact Hfrom|]. split; [exact Hh|].
  rewrite Ht. clear. repeat split.
  - destruct (Z.ltb_spec 365 (Gain.holding_days g)); [lia|discriminate].
  - destruct (Z.ltb_spec 365 (Gain.holding_days g)); [reflexivity|lia].
  - now intros ->.
  - now intros ->.
Qed.

(** * Rounding commutes with the ledger *)

Section Presentation.

Variable round_ : Q -> nat -> Q.

(** Gains emitted earlier; the ledger only ever appends to them. *)
Variable r0 : list Gain.t.

#[local] Abbreviation rounded_state := (rounded_state round_ r0).
#[local] Abbreviation rounded_pair := (rounded_pair round_ r0).

Lemma while_body_presented (tx : Tx.t) (st : wstate) :
  while_body round_ tx (rounded_state st) =
  fmap rounded_state (while_body full_precision tx st).
Proof.
  unfold while_body, fmap, rounded_state. cbn [lots amount_to_sell realized].
  destruct (lots st) as [|lot rest]; [reflexivity|].
  unfold py_div.
  destruct (Qeq_bool (Tx.amount tx) 0); [reflexivity|].
  destruct (Qeq_bool (Lot.amount lot) 0); [reflexivity|].
  cbn [bind lots amount_to_sell realized]. rewrite map_app, app_assoc.
  reflexivity.
Qed.

Lemma while_loop_presented (tx : Tx.t) :
  forall fuel st,
    while_loop round_ fuel tx (rounded_state st) =
    fmap rounded_state (while_loop full_precision fuel tx st).
Proof.
  induction fuel as [|fuel IH]; intro st; [reflexivity|].
  cbn [while_loop]. change (while_cond (rounded_state st)) with (while_cond st).
  destruct (while_cond st); [|reflexivity].
  rewrite while_body_presented.
  destruct (while_body full_precision tx st) as [st1| |]; cbn [fmap bind];
    [apply IH|reflexivity|reflexivity].
Qed.

Lemma for_body_presented (tx : Tx.t) (s : list Lot.t * list Gain.t) :
  for_body round_ tx (rounded_pair s) =
  fmap rounded_pair (for_body full_precision tx s).
Proof.
  destruct s as [l r]. unfold for_body, rounded_pair. cbn [fst snd].
  destruct (String.eqb (Tx.type tx) TRANSACTION_BUY); [reflexivity|].
  destruct (String.eqb (Tx.type tx) TRANSACTION_SELL); [|reflexivity].
  change (mkw (Tx.amount tx) l (r0 ++ map (presented round_) r))
    with (rounded_state (mkw (Tx.amount tx) l r)).
  rewrite while_loop_presented.
  destruct (while_loop full_precision _ tx _) as [st| |]; reflexivity.
Qed.

Lemma for_loop_presented (txs : list Tx.t) :
  forall s,
    for_loop round_ txs (rounded_pair s) =
    fmap rounded_pair (for_loop full_precision txs s).
Proof.
  induction txs as [|tx txs IH]; intro s; [reflexivity|].
  cbn [for_loop]. rewrite for_body_presented.
  destruct (for_body full_precision tx s) as [s1| |]; cbn [fmap bind];
    [apply IH|reflexivity|reflexivity].
Qed.

End Presentation.

(** A transaction processed after the gains [r] appends to [r] the rounded
    gains that it yields at full precision from no gains at all. *)
Lemma for_body_appends (round_ : Q -> nat -> Q) (tx : Tx.t) (l : list Lot.t)
      (r : list Gain.t) :
  for_body round_ tx (l, r) =
  fmap (fun s => (fst s, r ++ map (presented round_) (snd s)))
       (for_body full_precision tx (l, [])).
Proof.
  change (fun s : list Lot.t * list Gain.t =>
            (fst s, r ++ map (presented round_) (snd s)))
    with (rounded_pair round_ r).
  rewrite <- (for_body_presented round_ r tx (l, [])).
  unfold rounded_pair. cbn [fst snd map]. now rewrite app_nil_r.
Qed.

(** The ledger with rounding returns the queue of the ledger without, and
    its gains with their fields rounded. *)
Lemma ledger_presented (round_ : Q -> nat -> Q) (txs : list Tx.t) :
  ledger round_ txs =
  fmap (fun s => (fst s, map (presented round_) (snd s)))
       (ledger full_precision txs).
Proof. apply (for_loop_presented round_ [] txs ([], [])). Qed.

Lemma calculate_gains_presented (txs : list Tx.t) :
  calculate_gains txs =
  fmap (map (presented py_round)) (process_full_precision txs).
Proof.
  unfold calculate_gains, process_full_precision, calculate_gains_with.
  rewrite ledger_presented.
  destruct (ledger full_precision txs) as [s| |]; reflexivity.
Qed.

(** * Quantities consumed by a sale *)

Lemma Qsum_app (a b : list Q) : Qsum (a ++ b) == Qsum a + Qsum b.
Proof.
  induction a as [|x a IH]; cbn [Qsum app]; [ring|]. rewrite IH. ring.
Qed.

Lemma open_quantity_nonneg (l : list Lot.t) :
  Forall lot_positive l -> 0 <= open_quantity l.
Proof.
  unfold open_quantity. induction 1 as [|x l Hx Hl IH]; cbn [map Qsum]; [lra|].
  unfold lot_positive in Hx. lra.
Qed.

Lemma open_quantity_after (st : wstate) :
  lots st <> [] ->
  open_quantity (queue_after st) == open_quantity (lots st) - consumed st.
Proof.
  intro Hne. unfold queue_after, consumed, open_quantity.
  destruct (lots st) as [|lot rest]; [congruence|].
  set (c := py_min (amount_to_sell st) (Lot.amount lot)).
  cbn zeta. destruct (Qeq_bool (Lot.amount lot - c) 0) eqn:E; cbn [map Qsum].
  - apply Qeq_bool_iff in E. lra.
  - cbn [Lot.amount Lot.set_amount]. lra.
Qed.

Lemma sale_progress_step (tx : Tx.t) (l0 : list Lot.t) (r0 : list Gain.t)
      (st st' : wstate) :
  sale_progress tx l0 r0 st -> while_cond st = true ->
  while_body full_precision tx st = Ok st' ->
  sale_progress tx l0 r0 st'.
Proof.
  intros (Hp & Hn & new & Hr & Hs & Hq) Hc Hb.
  destruct (while_body_Ok _ _ _ _ Hb)
    as (lot & rest & g & Hl & _ & _ & En & Eq & Eg & _ & _ & Ea & _).
  unfold full_precision in Ea.
  pose proof (consumed_positive st Hp Hc) as Hcp.
  assert (Hcl : consumed st <= amount_to_sell st).
  { unfold consumed. rewrite Hl. apply py_min_le_l. }
  assert (Hne : lots st <> []) by (rewrite Hl; discriminate).
  pose proof (open_quantity_after st Hne) as Hoq.
  split; [rewrite Eq; now apply queue_after_positive|].
  split; [rewrite En; lra|].
  exists (new ++ [g]). split; [now rewrite Eg, Hr, app_assoc|].
  assert (Hsum : Qsum (amounts (new ++ [g])) == Qsum (amounts new) + consumed st).
  { unfold amounts. rewrite map_app, Qsum_app. cbn [map Qsum]. rewrite Ea. ring. }
  split.
  - rewrite Hsum, En. lra.
  - rewrite Hsum, Eq, Hoq. lra.
Qed.

(** What the loop of a sale returns on a queue of positive lots. *)
Lemma sale_outcome (tx : Tx.t) (l0 : list Lot.t) :
  Forall lot_positive l0 -> 0 <= Tx.amount tx ->
  exists st,
    while_loop full_precision (List.length l0 + 2) tx (mkw (Tx.amount tx) l0 [])
    = Ok st /\
    sale_progress tx l0 [] st /\
    (amount_to_sell st <= 0 \/ lots st = []).
Proof.
  intros Hp Ha.
  destruct (while_loop_returns full_precision tx (List.length l0 + 2)
                               (mkw (Tx.amount tx) l0 [])) as [st Hw].
  - split; cbn; [exact Hp|lra].
  - cbn. lia.
  - exists st. split; [exact Hw|].
    apply (while_loop_rule full_precision (sale_progress tx l0 []) tx) in Hw.
    + destruct Hw as [H1 H2]. split; [exact H1|]. now apply while_cond_false.
    + apply sale_progress_step.
    + split; [exact Hp|]. split; [exact Ha|]. exists [].
      unfold amounts. cbn [realized app map Qsum amount_to_sell lots].
      split; [reflexivity|]. split; lra.
Qed.

(** A sale of more than the open lots hold consumes them all and stops. *)
Lemma oversold_sale (tx : Tx.t) (l0 : list Lot.t) :
  Tx.type tx = TRANSACTION_SELL ->
  Forall lot_positive l0 ->
  open_quantity l0 < Tx.amount tx ->
  exists new,
    for_body full_precision tx (l0, []) = Ok ([], new) /\
    Qsum (amounts new) == open_quantity l0.
Proof.
  intros Hs Hp Hlt.
  pose proof (open_quantity_nonneg _ Hp) as Hnn0.
  assert (Ha : 0 <= Tx.amount tx) by lra.
  destruct (sale_outcome tx l0 Hp Ha)
    as (st & Hw & (Hp1 & Hn & new & Hr & Hsum & Hq) & Hend).
  rewrite (for_body_sale _ _ _ _ Hs), Hw. cbn [bind].
  exists new. cbn [app] in Hr. rewrite Hr.
  pose proof (open_quantity_nonneg _ Hp1) as Hnn.
  assert (E : lots st = []).
  { destruct Hend as [H|H]; [lra|exact H]. }
  rewrite E in *. split; [reflexivity|]. cbn in Hq. lra.
Qed.

(** ** A sale after a run *)

Lemma fmap_Ok {A B : Type} (f : A -> B) (m : result A) (b : B) :
  fmap f m = Ok b -> exists a, m = Ok a /\ b = f a.
Proof.
  unfold fmap. intro H. apply bind_Ok in H. destruct H as (a & Ha & H).
  injection H as <-. now exists a.
Qed.

(** The queue of positive lots reached by a run on positive purchases. *)
Lemma ledger_positive (round_ : Q -> nat -> Q) (txs : list Tx.t)
      (l : list Lot.t) (r : list Gain.t) :
  buys_positive txs -> ledger round_ txs = Ok (l, r) -> Forall lot_positive l.
Proof.
  intros Hb Hl.
  destruct (for_loop_positive round_ txs Hb [] []) as (l' & r' & E & Hp);
    [constructor|].
  unfold ledger in Hl. rewrite E in Hl. now injection Hl as <- <-.
Qed.

(** The run on [pre ++ [tx]] is the run on [pre] followed by [tx]. *)
Lemma ledger_snoc (round_ : Q -> nat -> Q) (pre : list Tx.t) (tx : Tx.t)
      (l0 : list Lot.t) (r0 : list Gain.t) :
  ledger round_ pre = Ok (l0, r0) ->
  ledger round_ (pre ++ [tx]) =
  fmap (fun s => (fst s, r0 ++ map (presented round_) (snd s)))
       (for_body full_precision tx (l0, [])).
Proof.
  intro H. unfold ledger in *. rewrite for_loop_app, H. cbn [bind for_loop].
  rewrite for_body_appends.
  destruct (for_body full_precision tx (l0, [])) as [[l1 new]| |]; reflexivity.
Qed.

(** ** The lots matched by a sale *)

(** The [while] loop of a sale consumes what [matched] lists, and leaves the
    queue [left_open]. *)
Lemma while_loop_matched (round_ : Q -> nat -> Q) (tx : Tx.t) (l : list Lot.t) :
  forall need r fuel st',
    (List.length l + 2 <= fuel)%nat ->
    while_loop round_ fuel tx (mkw need l r) = Ok st' ->
    lots st' = left_open need l /\
    exists new,
      realized st' = r ++ new /\
      Forall2 (records round_) new (matched need l).
Proof.
  induction l as [|lot rest IH]; intros need r fuel st' Hfuel Hw.
  - destruct fuel as [|fuel]; [lia|]. cbn [while_loop] in Hw.
    unfold while_cond in Hw. cbn [lots List.length Nat.eqb negb] in Hw.
    rewrite andb_false_r in Hw. injection Hw as <-.
    cbn [lots realized left_open matched]. split; [reflexivity|].
    exists []. split; [now rewrite app_nil_r|constructor].
  - destruct fuel as [|fuel]; [lia|]. cbn [List.length] in Hfuel.
    cbn [while_loop] in Hw. unfold while_cond in Hw.
    cbn [lots amount_to_sell List.length Nat.eqb negb] in Hw.
    rewrite andb_true_r in Hw. cbn [matched left_open].
    destruct (Qltb 0 need) eqn:En.
    + apply bind_Ok in Hw. destruct Hw as (st1 & Hb & Hw).
      destruct (while_body_Ok round_ tx _ _ Hb)
        as (lot' & rest' & g & El & _ & _ & Ea & Eq & Eg & _ & Ed & Eam & _).
      cbn [lots] in El. injection El as <- <-.
      unfold queue_after in Eq. unfold consumed, py_min in *.
      cbn [lots amount_to_sell realized] in *.
      destruct st1 as [need1 lots1 realized1].
      cbn [lots amount_to_sell realized] in *. subst need1 lots1 realized1.
      destruct (Qltb (Lot.amount lot) need) eqn:Ec.
      * replace (Qeq_bool (Lot.amount lot - Lot.amount lot) 0) with true in Hw
          by (symmetry; apply Qeq_bool_iff; ring).
        apply IH in Hw; [|lia]. destruct Hw as (Hl & new & Hr & Hf).
        split; [exact Hl|]. exists (g :: new).
        split; [now rewrite Hr, <- app_assoc|].
        constructor; [now split|exact Hf].
      * destruct fuel as [|fuel]; [lia|]. cbn [while_loop] in Hw.
        unfold while_cond in Hw. cbn [amount_to_sell] in Hw.
        replace (Qltb 0 (need - need)) with false in Hw
          by (symmetry; apply Qltb_ge; lra).
        cbn [andb] in Hw. injection Hw as <-. cbn [lots realized].
        split; [reflexivity|]. exists [g]. split; [reflexivity|].
        constructor; [now split|constructor].
    + injection Hw as <-. cbn [lots realized]. split; [reflexivity|].
      exists []. split; [now rewrite app_nil_r|constructor].
Qed.

(** The lots matched by a sale are the front lots of the queue, in order;
    each is consumed whole, but for the last, from which no more than it
    holds is consumed. *)
Lemma matched_shape (l : list Lot.t) :
  forall need i lot c,
    nth_error (matched need l) i = Some (lot, c) ->
    nth_error l i = Some lot /\
    c <= Lot.amount lot /\
    ((S i < List.length (matched need l))%nat -> c = Lot.amount lot).
Proof.
  induction l as [|lot0 rest IH]; intros need i lot c H; cbn [matched] in *.
  - destruct i; discriminate.
  - destruct (Qltb 0 need); [|destruct i; discriminate].
    destruct (Qltb (Lot.amount lot0) need) eqn:Ec.
    + destruct i as [|i]; cbn [nth_error List.length] in *.
      * injection H as <- <-. split; [reflexivity|]. split; [lra|reflexivity].
      * destruct (IH _ _ _ _ H) as (H1 & H2 & H3).
        split; [exact H1|]. split; [exact H2|]. intro Hi. apply H3. lia.
    + apply Qltb_ge in Ec. destruct i as [|i]; cbn [nth_error List.length] in *.
      * injection H as <- <-. split; [reflexivity|]. split; [exact Ec|lia].
      * destruct i; discriminate.
Qed.



(** * The gain aggregator *)

Lemma bucket_cons (t : term_t) (b : bool) (g : Gain.t) (gs : list Gain.t) :
  bucket t b (g :: gs) =
  if in_bucket t b g then Gain.gain g + bucket t b gs else bucket t b gs.
Proof.
  unfold bucket. cbn [filter]. now destruct (in_bucket t b g).
Qed.

(** The accumulators of the loop are the sums of the buckets. *)
Lemma fold_summarize_body (gs : list Gain.t) :
  forall a,
    st_gain (fold_left summarize_body gs a) == st_gain a + bucket Short true gs /\
    st_loss (fold_left summarize_body gs a) == st_loss a + bucket Short false gs /\
    lt_gain (fold_left summarize_body gs a) == lt_gain a + bucket Long true gs /\
    lt_loss (fold_left summarize_body gs a) == lt_loss a + bucket Long false gs /\
    total_tax (fold_left summarize_body gs a)
    == total_tax a + Qsum (map Gain.tax_owed gs).
Proof.
  induction gs as [|g gs IH]; intro a.
  - unfold bucket. cbn. repeat split; ring.
  - cbn [fold_left map Qsum]. rewrite !bucket_cons.
    destruct (IH (summarize_body a g)) as (H1 & H2 & H3 & H4 & H5).
    rewrite H1, H2, H3, H4, H5. clear.
    unfold summarize_body, in_bucket.
    destruct (Gain.term g), (Qle_bool 0 (Gain.gain g));
      cbn [term_eqb Bool.eqb andb st_gain st_loss lt_gain lt_loss total_tax];
      repeat split; ring.
Qed.

Lemma summarize_gains_sums (gs : list Gain.t) :
  st_gain (sums (summarize_gains gs)) == bucket Short true gs /\
  st_loss (sums (summarize_gains gs)) == bucket Short false gs /\
  lt_gain (sums (summarize_gains gs)) == bucket Long true gs /\
  lt_loss (sums (summarize_gains gs)) == bucket Long false gs /\
  total_tax (sums (summarize_gains gs)) == Qsum (map Gain.tax_owed gs).
Proof.
  unfold summarize_gains. cbn [sums].
  destruct (fold_summarize_body gs (mkt 0 0 0 0 0)) as (H1 & H2 & H3 & H4 & H5).
  cbn [st_gain st_loss lt_gain lt_loss total_tax] in *.
  rewrite H1, H2, H3, H4, H5. repeat split; ring.
Qed.

Lemma summarize_gains_net (gs : list Gain.t) :
  net_gain (summarize_gains gs) == net_of gs /\
  net_loss (summarize_gains gs) == losses_of gs.
Proof.
  destruct (summarize_gains_sums gs) as (H1 & H2 & H3 & H4 & _).
  unfold summarize_gains in *. cbn [sums net_gain net_loss] in *.
  unfold net_of, losses_of. rewrite H1, H2, H3, H4. split; ring.
Qed.

Lemma bucket_sign (t : term_t) (gs : list Gain.t) :
  0 <= bucket t true gs /\ bucket t false gs <= 0.
Proof.
  induction gs as [|g gs [IH1 IH2]].
  - unfold bucket. cbn. split; lra.
  - rewrite !bucket_cons. unfold in_bucket.
    destruct (term_eqb (Gain.term g) t); cbn [andb]; [|now split].
    destruct (Qle_bool 0 (Gain.gain g)) eqn:E; cbn [Bool.eqb].
    + apply Qle_bool_iff in E. split; lra.
    + assert (Gain.gain g < 0).
      { apply Qnot_le_lt. intro H. apply Qle_bool_iff in H. congruence. }
      split; lra.
Qed.

Lemma py_min_Qmin (a b : Q) : py_min a b == Qmin a b.
Proof.
  destruct (py_min_cases a b) as [[H ->]|[H ->]].
  - symmetry. apply Q.min_r. lra.
  - symmetry. now apply Q.min_l.
Qed.

Lemma deductible_loss_cases (gs : list Gain.t) :
  (0 <= net_of gs -> deductible_loss (summarize_gains gs) = 0) /\
  (net_of gs < 0 ->
   deductible_loss (summarize_gains gs)
   = py_min (Qabs (net_loss (summarize_gains gs))) MAX_CAPITAL_LOSS_DEDUCTION).
Proof.
  destruct (summarize_gains_net gs) as [Hn _].
  unfold summarize_gains in *. cbn [net_gain net_loss deductible_loss sums] in *.
  split; intro H.
  - replace (Qltb _ 0) with false; [reflexivity|].
    symmetry. apply Qltb_ge. lra.
  - replace (Qltb _ 0) with true; [reflexivity|].
    symmetry. apply Qltb_lt. lra.
Qed.

Lemma deductible_loss_Qmin (gs : list Gain.t) :
  net_of gs < 0 ->
  deductible_loss (summarize_gains gs)
  == Qmin (- losses_of gs) MAX_CAPITAL_LOSS_DEDUCTION /\
  Qabs (losses_of gs) == - losses_of gs.
Proof.
  intro H. destruct (deductible_loss_cases gs) as [_ Hd]. rewrite (Hd H).
  destruct (summarize_gains_net gs) as [_ Hl].
  assert (Hneg : losses_of gs <= 0).
  { unfold losses_of.
    pose proof (bucket_sign Short gs). pose proof (bucket_sign Long gs). lra. }
  assert (Ha : Qabs (net_loss (summarize_gains gs)) == - losses_of gs).
  { rewrite Hl. now apply Qabs_neg. }
  split; [|now apply Qabs_neg].
  rewrite py_min_Qmin.
  destruct (Qlt_le_dec MAX_CAPITAL_LOSS_DEDUCTION (- losses_of gs)) as [Hc|Hc].
  - rewrite !Q.min_r; lra.
  - rewrite !Q.min_l; lra.
Qed.



(** * Rounding and aggregation *)



(** * Transactions of other kinds *)

(** C8 (amended): a transaction that is neither a purchase nor a sale is
    skipped; the run returns what it returns on the sequence without it. *)
Theorem other_kinds_are_skipped (pre post : list Tx.t) (tx : Tx.t) :
  Tx.type tx <> TRANSACTION_BUY -> Tx.type tx <> TRANSACTION_SELL ->
  calculate_gains (pre ++ tx :: post) = calculate_gains (pre ++ post).
Proof.
  intros Hb Hs. unfold calculate_gains, calculate_gains_with, ledger.
  rewrite !for_loop_app. cbn [for_loop].
  destruct (for_loop py_round pre ([], [])) as [s| |]; cbn [bind];
    [|reflexivity|reflexivity].
  now rewrite (for_body_other py_round tx s Hb Hs).
Qed.

(** A transfer is accepted, and yields nothing. *)
Lemma transfer_is_accepted :
  calculate_gains [Tx.mk 0 "TRANSFER" 1 100 0] = Ok [].
Proof. reflexivity. Qed.

(** * Sales beyond the open lots, and sales of small lots *)



(** * Fees of a lot sold in several sales *)

(** C1: a lot of 2 bought with a fee of 10 and sold in two sales of 1, at the
    purchase price and without sale fees.  The gain of each sale is minus the
    fee charged to the lot: 5 for the first sale, and 10 for the second,
    where the remaining half of the fee is due. *)
Theorem lot_fee_charged_on_remaining_amount :
  exists g1 g2,
    calculate_gains [buy 0 2 100 10; sale 1 1 100 0; sale 2 1 100 0]
    = Ok [g1; g2] /\
    Gain.gain g1 == - (5) /\ Gain.gain g2 == - (10) /\
    ~ - Gain.gain g1 + - Gain.gain g2 == 10.
Proof.
  eexists. eexists. split; [vm_compute; reflexivity|].
  split; [vm_compute; reflexivity|].
  split; [vm_compute; reflexivity|]. vm_compute. discriminate.
Qed.

(** * The program on a store of objects *)

Module HeapFacts.

(** The program on values, under names that the import of [Heap] leaves
    visible. *)
#[local] Abbreviation value_while_cond := while_cond.
#[local] Abbreviation value_while_body := (while_body py_round).
#[local] Abbreviation value_while_loop := (while_loop py_round).
#[local] Abbreviation value_for_body := (for_body py_round).
#[local] Abbreviation value_for_loop := (for_loop py_round).
#[local] Abbreviation value_calculate_gains := calculate_gains.

Lemma value_while_loop_S (fuel : nat) (t : Tx.t) (st : wstate) :
  while_loop py_round (S fuel) t st =
  if while_cond st
  then st' <- while_body py_round t st ;; while_loop py_round fuel t st'
  else Ok st.
Proof. reflexivity. Qed.

Lemma value_for_loop_cons (t : Tx.t) (txs : list Tx.t)
      (s : list Lot.t * list Gain.t) :
  for_loop py_round (t :: txs) s =
  (s' <- for_body py_round t s ;; for_loop py_round txs s').
Proof. reflexivity. Qed.

Lemma value_calculate_gains_eq (txs : list Tx.t) :
  calculate_gains txs = fmap snd (for_loop py_round txs ([], [])).
Proof. reflexivity. Qed.

Import Heap.

Lemma update_length (h : store) (a : addr) (o : obj) :
  List.length (update h a o) = List.length h.
Proof.
  revert a. induction h as [|x h IH]; intros [|a]; cbn; auto.
Qed.

Lemma update_other (h : store) (a b : addr) (o : obj) :
  a <> b -> nth_error (update h a o) b = nth_error h b.
Proof.
  revert a b. induction h as [|x h IH]; intros [|a] [|b] Hab; cbn; auto.
  congruence.
Qed.

Lemma update_same (h : store) (a : addr) (o : obj) :
  (a < List.length h)%nat -> nth_error (update h a o) a = Some o.
Proof.
  revert a. induction h as [|x h IH]; intros [|a] Ha; cbn in *; try lia; auto.
  apply IH. lia.
Qed.

Lemma unchanged_refl (h : store) : unchanged h h.
Proof. intros a o H. exact H. Qed.

Lemma unchanged_trans (h1 h2 h3 : store) :
  unchanged h1 h2 -> unchanged h2 h3 -> unchanged h1 h3.
Proof. intros H12 H23 a o H. auto. Qed.

Lemma unchanged_alloc (h : store) (o : obj) : unchanged h (h ++ [o]).
Proof.
  intros a x H. rewrite nth_error_app1; [exact H|].
  apply nth_error_Some. congruence.
Qed.

Lemma unchanged_update (h0 h : store) (a : addr) (o : obj) :
  (List.length h0 <= a)%nat -> unchanged h0 h -> unchanged h0 (update h a o).
Proof.
  intros Ha Hu b x Hb. rewrite update_other; [now apply Hu|].
  assert (b < List.length h0)%nat by (apply nth_error_Some; congruence). lia.
Qed.

Section Frame.

Variable h0 : store.
Variables lots realized : addr.

#[local] Abbreviation owned := (owned h0 lots realized).
#[local] Abbreviation safe := (safe h0 lots realized).
#[local] Abbreviation fresh := (fresh h0 lots).

Lemma safe_ret {A : Type} (a : A) (Q : A -> Prop) : Q a -> safe (ret a) Q.
Proof. intros HQ h Hh. cbn. split; [exact Hh|]. now intros ? [= <-]. Qed.

Lemma safe_lift {A : Type} (r : result A) (Q : A -> Prop) :
  (forall a, r = Ok a -> Q a) -> safe (lift r) Q.
Proof. intros HQ h Hh. cbn. split; [exact Hh|exact HQ]. Qed.

Lemma safe_bind {A B : Type} (m : M A) (k : A -> M B) (R : A -> Prop)
      (Q : B -> Prop) :
  safe m R -> (forall a, R a -> safe (k a) Q) -> safe (mbind m k) Q.
Proof.
  intros Hm Hk h Hh. unfold mbind.
  destruct (Hm h Hh) as [Ho HR].
  destruct (m h) as [[a|e|] h1]; cbn [fst snd] in *.
  - apply (Hk a (HR a eq_refl) h1 Ho).
  - split; [exact Ho|discriminate].
  - split; [exact Ho|discriminate].
Qed.

Lemma safe_weaken {A : Type} (m : M A) (Q Q' : A -> Prop) :
  safe m Q -> (forall a, Q a -> Q' a) -> safe m Q'.
Proof.
  intros Hm HQ h Hh. destruct (Hm h Hh) as [Ho H]. split; auto.
Qed.

Lemma safe_load (a : addr) : safe (load a) (fun _ => True).
Proof.
  intros h Hh. unfold load. destruct (nth_error h a); cbn; auto.
Qed.

Ltac safe_typed_load :=
  eapply safe_bind; [apply safe_load|];
  intros [] _; (apply safe_ret || apply safe_lift); auto; discriminate.

Lemma safe_load_tx (a : addr) : safe (load_tx a) (fun _ => True).
Proof. unfold load_tx. safe_typed_load. Qed.

Lemma safe_load_lot (a : addr) : safe (load_lot a) (fun _ => True).
Proof. unfold load_lot. safe_typed_load. Qed.

Lemma safe_load_gain (a : addr) : safe (load_gain a) (fun _ => True).
Proof. unfold load_gain. safe_typed_load. Qed.

Lemma safe_load_list (a : addr) : safe (load_list a) (fun _ => True).
Proof. unfold load_list. safe_typed_load. Qed.

(** The list of the open lots holds new objects only. *)
Lemma safe_load_lots : safe (load_list lots) (Forall fresh).
Proof.
  intros h Hh. pose proof Hh as (_ & _ & _ & _ & items & Hl & Hf).
  unfold load_list, mbind, load. rewrite Hl. cbn.
  split; [exact Hh|]. now intros ? [= <-].
Qed.

Lemma safe_alloc (o : obj) : safe (alloc o) fresh.
Proof.
  intros h (Hu & Hl0 & Hl & Hr & items & Hi & Hf). unfold alloc. cbn [fst snd].
  split.
  - split; [|split; [|split; [|split]]]; auto.
    + eapply unchanged_trans; [exact Hu|apply unchanged_alloc].
    + rewrite length_app. cbn. lia.
    + exists items. split; [|exact Hf]. now apply unchanged_alloc.
  - intros a [= <-]. split; lia.
Qed.

(** A write to a new object other than the list of the open lots. *)
Lemma safe_write_fresh (a : addr) (o : obj) :
  fresh a -> safe (write a o) (fun _ => True).
Proof.
  intros [Ha Hal] h (Hu & Hl0 & Hl & Hr & items & Hi & Hf). unfold write.
  cbn [fst snd]. split; [|auto].
  split; [|split; [|split; [|split]]]; auto.
  - now apply unchanged_update.
  - now rewrite update_length.
  - exists items. split; [|exact Hf]. now rewrite update_other.
Qed.

(** A write of new objects to the list of the open lots. *)
Lemma safe_write_lots (items : list addr) :
  Forall fresh items -> safe (write lots (ListO items)) (fun _ => True).
Proof.
  intros Hf h (Hu & Hl0 & Hl & Hr & _). unfold write.
  cbn [fst snd]. split; [|auto].
  split; [|split; [|split; [|split]]]; auto.
  - now apply unchanged_update.
  - now rewrite update_length.
  - exists items. split; [|exact Hf]. now apply update_same.
Qed.

Lemma safe_append_lots (x : addr) :
  fresh x -> safe (append lots x) (fun _ => True).
Proof.
  intro Hx. unfold append. eapply safe_bind; [apply safe_load_lots|].
  intros items Hi. apply safe_write_lots.
  apply Forall_app. split; [exact Hi|]. now constructor.
Qed.

Lemma safe_pop0_lots : safe (pop0 lots) (fun _ => True).
Proof.
  unfold pop0. eapply safe_bind; [apply safe_load_lots|].
  intros [|x items] Hi.
  - apply safe_lift. discriminate.
  - apply safe_write_lots. now apply Forall_cons_iff in Hi.
Qed.

Lemma safe_append_realized (x : addr) :
  safe (append realized x) (fun _ => True).
Proof.
  intros h Hh. pose proof Hh as (_ & _ & _ & Hr & _). revert h Hh.
  unfold append. eapply safe_bind; [apply safe_load_list|].
  intros items _. now apply safe_write_fresh.
Qed.

Lemma safe_while_cond (n : Q) : safe (while_cond lots n) (fun _ => True).
Proof.
  unfold while_cond. eapply safe_bind; [apply safe_load_list|].
  intros items _. now apply safe_ret.
Qed.

Lemma safe_while_body (tx : addr) (sell_price : Q) (sell_date : Z)
      (sell_fees n : Q) :
  safe (while_body lots realized tx sell_price sell_date sell_fees n)
       (fun _ => True).
Proof.
  unfold while_body. eapply safe_bind; [apply safe_load_lots|].
  intros [|lot items] Hi; [apply safe_lift; discriminate|].
  apply Forall_cons_iff in Hi. destruct Hi as [Hlot _].
  eapply safe_bind; [apply safe_load_lot|]. intros l _.
  eapply safe_bind; [apply safe_load_tx|]. intros t _.
  eapply safe_bind; [apply safe_lift; exact (fun _ _ => I)|]. intros q1 _.
  eapply safe_bind; [apply safe_lift; exact (fun _ _ => I)|]. intros q2 _.
  eapply safe_bind; [apply safe_alloc|]. intros g _.
  eapply safe_bind; [apply safe_append_realized|]. intros _ _.
  eapply safe_bind; [apply safe_load_lot|]. intros l1 _.
  eapply safe_bind; [now apply safe_write_fresh|]. intros _ _.
  eapply safe_bind; [apply safe_load_lot|]. intros l2 _.
  eapply safe_bind with (R := fun _ => True).
  - destruct (Qeq_bool (Lot.amount l2) 0);
      [apply safe_pop0_lots|now apply safe_ret].
  - intros _ _. now apply safe_ret.
Qed.

Lemma safe_while_loop (tx : addr) (sell_price : Q) (sell_date : Z)
      (sell_fees : Q) :
  forall fuel n,
    safe (while_loop lots realized fuel tx sell_price sell_date sell_fees n)
         (fun _ => True).
Proof.
  induction fuel as [|fuel IH]; intro n; cbn [while_loop].
  - apply safe_lift. discriminate.
  - eapply safe_bind; [apply safe_while_cond|]. intros [] _.
    + eapply safe_bind; [apply safe_while_body|]. intros n' _. apply IH.
    + now apply safe_ret.
Qed.

Lemma safe_for_body (tx : addr) :
  safe (for_body lots realized tx) (fun _ => True).
Proof.
  unfold for_body. eapply safe_bind; [apply safe_load_tx|]. intros t _.
  destruct (String.eqb (Tx.type t) TRANSACTION_BUY).
  - eapply safe_bind; [apply safe_alloc|]. intros lot Hlot.
    now apply safe_append_lots.
  - destruct (String.eqb (Tx.type t) TRANSACTION_SELL).
    + eapply safe_bind; [apply safe_load_list|]. intros items _.
      apply safe_while_loop.
    + now apply safe_ret.
Qed.

Lemma safe_for_loop (transactions : addr) :
  forall fuel i,
    safe (for_loop lots realized fuel transactions i) (fun _ => True).
Proof.
  induction fuel as [|fuel IH]; intro i; cbn [for_loop].
  - apply safe_lift. discriminate.
  - eapply safe_bind; [apply safe_load_list|]. intros items _.
    destruct (nth_error items i) as [tx|]; [|now apply safe_ret].
    eapply safe_bind; [apply safe_for_body|]. intros _ _. apply IH.
Qed.

End Frame.

(** The run of [calculate_gains] after the allocation of its two lists. *)
Lemma calculate_gains_owned (transactions : addr) (h : store) :
  owned h (List.length h) (S (List.length h))
        (snd (calculate_gains transactions h)).
Proof.
  set (lots := List.length h). set (realized := S (List.length h)).
  set (h2 := (h ++ [ListO []]) ++ [ListO []]).
  assert (Hh2 : owned h lots realized h2).
  { subst lots realized h2. split; [|split; [|split; [|split]]].
    - eapply unchanged_trans; apply unchanged_alloc.
    - lia.
    - rewrite !length_app. cbn. lia.
    - split; lia.
    - exists []. split; [|constructor].
      rewrite nth_error_app1 by (rewrite length_app; cbn; lia).
      rewrite nth_error_app2 by lia. now rewrite Nat.sub_diag. }
  assert (Hs : safe h lots realized
                    (items <~ load_list transactions ;;
                     for_loop lots realized (List.length items + 1)
                              transactions 0 ;;;
                     ret realized)
                    (fun _ => True)).
  { eapply safe_bind; [apply safe_load_list|]. intros items _.
    eapply safe_bind; [apply safe_for_loop|]. intros _ _. now apply safe_ret. }
  destruct (Hs h2 Hh2) as [Ho _].
  replace (calculate_gains transactions h)
    with ((items <~ load_list transactions ;;
           for_loop lots realized (List.length items + 1) transactions 0 ;;;
           ret realized) h2); [exact Ho|].
  unfold calculate_gains, mbind at 3 4, alloc. cbn [fst snd].
  subst lots realized h2. rewrite length_app. cbn [List.length].
  now rewrite Nat.add_1_r.
Qed.

Lemma load_gain_eq (a : addr) (h : store) :
  load_gain a h =
  match nth_error h a with
  | Some (GainD g) => (Ok g, h)
  | _ => (Raise TypeError, h)
  end.
Proof.
  unfold load_gain, mbind, load. now destruct (nth_error h a) as [[]|].
Qed.

Lemma load_list_eq (a : addr) (h : store) :
  load_list a h =
  match nth_error h a with
  | Some (ListO items) => (Ok items, h)
  | _ => (Raise TypeError, h)
  end.
Proof.
  unfold load_list, mbind, load. now destruct (nth_error h a) as [[]|].
Qed.

Lemma load_lot_eq (a : addr) (h : store) :
  load_lot a h =
  match nth_error h a with
  | Some (LotD l) => (Ok l, h)
  | _ => (Raise TypeError, h)
  end.
Proof.
  unfold load_lot, mbind, load. now destruct (nth_error h a) as [[]|].
Qed.

Lemma load_tx_eq (a : addr) (h : store) :
  load_tx a h =
  match nth_error h a with
  | Some (TxD t) => (Ok t, h)
  | _ => (Raise TypeError, h)
  end.
Proof.
  unfold load_tx, mbind, load. now destruct (nth_error h a) as [[]|].
Qed.

(** ** Reading lists of objects *)

Lemma read_all_In {A : Type} (get : obj -> option A) (h : store)
      (items : list addr) (xs : list A) :
  read_all get h items = Some xs ->
  forall a, In a items ->
            exists o x, nth_error h a = Some o /\ get o = Some x.
Proof.
  revert xs. induction items as [|b items IH]; intros xs H a Ha;
    [contradiction|].
  cbn [read_all] in H.
  destruct (nth_error h b) as [o|] eqn:Eb; [|discriminate].
  destruct (get o) as [x|] eqn:Eo; [|discriminate].
  destruct (read_all get h items) as [xs'|]; [|discriminate].
  destruct Ha as [<-|Ha]; [now exists o, x|]. now apply (IH xs').
Qed.

Lemma read_all_ext {A : Type} (get : obj -> option A) (h h' : store)
      (items : list addr) :
  (forall a, In a items -> nth_error h' a = nth_error h a) ->
  read_all get h' items = read_all get h items.
Proof.
  induction items as [|b items IH]; intro H; [reflexivity|].
  cbn [read_all]. rewrite (H b) by now left.
  rewrite IH; [reflexivity|]. intros a Ha. apply H. now right.
Qed.

Lemma read_all_app {A : Type} (get : obj -> option A) (h : store)
      (i1 i2 : list addr) (x1 x2 : list A) :
  read_all get h i1 = Some x1 -> read_all get h i2 = Some x2 ->
  read_all get h (i1 ++ i2) = Some (x1 ++ x2).
Proof.
  revert x1. induction i1 as [|b i1 IH]; intros x1 H1 H2; cbn [read_all app] in *.
  - now injection H1 as <-.
  - destruct (nth_error h b) as [o|]; [|discriminate].
    destruct (get o) as [x|]; [|discriminate].
    destruct (read_all get h i1) as [xs|]; [|discriminate].
    injection H1 as <-. now rewrite (IH xs eq_refl H2).
Qed.

Lemma read_all_length {A : Type} (get : obj -> option A) (h : store)
      (items : list addr) (xs : list A) :
  read_all get h items = Some xs -> List.length xs = List.length items.
Proof.
  revert xs. induction items as [|b items IH]; intros xs H; cbn [read_all] in H.
  - now injection H as <-.
  - destruct (nth_error h b) as [o|]; [|discriminate].
    destruct (get o) as [x|]; [|discriminate].
    destruct (read_all get h items) as [xs'|]; [|discriminate].
    injection H as <-. cbn. now rewrite (IH xs').
Qed.

Lemma read_all_nth {A : Type} (get : obj -> option A) (h : store)
      (items : list addr) (xs : list A) :
  read_all get h items = Some xs ->
  forall i a,
    nth_error items i = Some a ->
    exists o x, nth_error h a = Some o /\ get o = Some x /\
                nth_error xs i = Some x.
Proof.
  revert xs. induction items as [|b items IH]; intros xs H i a Hi.
  - now destruct i.
  - cbn [read_all] in H.
    destruct (nth_error h b) as [o|] eqn:Eb; [|discriminate].
    destruct (get o) as [x|] eqn:Eo; [|discriminate].
    destruct (read_all get h items) as [xs'|]; [|discriminate].
    injection H as <-. destruct i as [|i]; cbn [nth_error] in *.
    + injection Hi as <-. now exists o, x.
    + now apply (IH xs' eq_refl).
Qed.

Lemma skipn_nth {A : Type} (xs : list A) (i : nat) (x : A) :
  nth_error xs i = Some x -> skipn i xs = x :: skipn (S i) xs.
Proof.
  revert i. induction xs as [|y xs IH]; intros [|i] H; cbn in *;
    try discriminate.
  - now injection H as <-.
  - now apply IH.
Qed.

(** ** Running the primitives *)

Lemma mbind_run {A B : Type} (m : M A) (k : A -> M B) (h h' : store) (a : A) :
  m h = (Ok a, h') -> mbind m k h = k a h'.
Proof. intro H. unfold mbind. now rewrite H. Qed.

Lemma load_lot_run (a : addr) (h : store) (l : Lot.t) :
  nth_error h a = Some (LotD l) -> load_lot a h = (Ok l, h).
Proof. intro H. now rewrite load_lot_eq, H. Qed.

Lemma load_list_run (a : addr) (h : store) (items : list addr) :
  nth_error h a = Some (ListO items) -> load_list a h = (Ok items, h).
Proof. intro H. now rewrite load_list_eq, H. Qed.

Lemma load_tx_run (a : addr) (h : store) (t : Tx.t) :
  nth_error h a = Some (TxD t) -> load_tx a h = (Ok t, h).
Proof. intro H. now rewrite load_tx_eq, H. Qed.

Lemma append_run (l x : addr) (h : store) (items : list addr) :
  nth_error h l = Some (ListO items) ->
  append l x h = (Ok tt, update h l (ListO (items ++ [x]))).
Proof.
  intro H. unfold append. now rewrite (mbind_run _ _ _ _ _ (load_list_run _ _ _ H)).
Qed.

Lemma pop0_run (l x : addr) (h : store) (items : list addr) :
  nth_error h l = Some (ListO (x :: items)) ->
  pop0 l h = (Ok tt, update h l (ListO items)).
Proof.
  intro H. unfold pop0. now rewrite (mbind_run _ _ _ _ _ (load_list_run _ _ _ H)).
Qed.

(** ** The run on the store computes what the run on values computes *)

Section Refinement.

Variable h0 : store.
Variables L R : addr.

#[local] Abbreviation rep := (Heap.rep h0 L R).

Lemma while_cond_sim (h : store) (n : Q) (ls : list Lot.t) (rs : list Gain.t) :
  rep h ls rs ->
  while_cond L n h = (Ok (value_while_cond (mkw n ls rs)), h).
Proof.
  intros (_ & _ & _ & _ & la & ra & HnL & _ & Hls & _).
  unfold while_cond, mbind. rewrite load_list_eq, HnL.
  unfold ret, value_while_cond. cbn [amount_to_sell lots].
  now rewrite (read_all_length _ _ _ _ Hls).
Qed.

Lemma py_div_no_timeout (a b : Q) : py_div a b <> Timeout.
Proof. unfold py_div. destruct (Qeq_bool b 0); discriminate. Qed.

Lemma while_body_sim (tx : addr) (t : Tx.t) (h : store) (n : Q)
      (ls : list Lot.t) (rs : list Gain.t) :
  rep h ls rs -> nth_error h0 tx = Some (TxD t) ->
  exists h',
    while_body L R tx (Tx.price t) (Tx.date t) (Tx.fees t) n h
    = (fmap amount_to_sell (value_while_body t (mkw n ls rs)), h') /\
    forall st',
      value_while_body t (mkw n ls rs) = Ok st' ->
      rep h' (lots st') (realized st').
Proof.
  intros (Hu & Hne & HL & HR & la & ra & HnL & HnR & Hls & Hrs & Hnd & Hfr) Htx.
  unfold value_while_body, while_body. cbn [amount_to_sell lots realized].
  unfold mbind at 1. rewrite load_list_eq, HnL.
  destruct la as [|lot items]; cbn [read_all] in Hls.
  { injection Hls as <-. exists h. split; [reflexivity|discriminate]. }
  destruct (nth_error h lot) as [[ | l | | ]|] eqn:Elot; try discriminate.
  cbn [as_lot] in Hls.
  destruct (read_all as_lot h items) as [ls'|] eqn:Eitems; [|discriminate].
  injection Hls as <-.
  unfold mbind at 1. rewrite load_lot_eq, Elot.
  unfold mbind at 1. rewrite load_tx_eq, (Hu tx _ Htx).
  set (afl := py_min n (Lot.amount l)).
  unfold mbind at 1, lift at 1.
  destruct (py_div afl (Tx.amount t)) as [q1|e|] eqn:E1; cbn [bind fmap];
    [|exists h; split; [reflexivity|discriminate]
     |now apply py_div_no_timeout in E1].
  unfold mbind at 1, lift at 1.
  destruct (py_div afl (Lot.amount l)) as [q2|e|] eqn:E2; cbn [bind fmap];
    [|exists h; split; [reflexivity|discriminate]
     |now apply py_div_no_timeout in E2].
  match goal with |- context [GainD ?x] => set (g := x) end.
  set (l' := Lot.set_amount l (Lot.amount l - afl)).
  set (ga := List.length h).
  set (h1 := h ++ [GainD g]).
  set (h2 := update h1 R (ListO (ra ++ [ga]))).
  set (h3 := update h2 lot (LotD l')).
  set (b := Qeq_bool (Lot.amount l') 0).
  set (h4 := if b then update h3 L (ListO items) else h3).
  (* the addresses at hand *)
  assert (HlotR : lot <> R) by (intros ->; congruence).
  assert (HlotL : lot <> L) by (intros ->; congruence).
  assert (Hlen : forall a o, nth_error h a = Some o -> (a < ga)%nat).
  { intros a o Ha. apply nth_error_Some. congruence. }
  pose proof (Hlen _ _ Elot) as Hlot_lt.
  pose proof (Hlen _ _ HnL) as HL_lt.
  pose proof (Hlen _ _ HnR) as HR_lt.
  assert (Hh1 : forall a o, nth_error h a = Some o -> nth_error h1 a = Some o).
  { apply unchanged_alloc. }
  assert (E3lot : nth_error h3 lot = Some (LotD l')).
  { apply update_same. unfold h2. rewrite update_length. unfold h1.
    rewrite length_app. cbn. lia. }
  assert (E3L : nth_error h3 L = Some (ListO (lot :: items))).
  { unfold h3, h2. rewrite !update_other by congruence. now apply Hh1. }
  assert (E4 : forall a, a <> R -> a <> lot -> a <> L ->
                         nth_error h4 a = nth_error h1 a).
  { intros a H1 H2 H3. unfold h4, h3, h2.
    destruct b; now rewrite !update_other by congruence. }
  exists h4. split.
  - rewrite (mbind_run _ _ h h1 ga) by reflexivity.
    rewrite (mbind_run _ _ h1 h2 tt) by (apply append_run; now apply Hh1).
    rewrite (mbind_run _ _ h2 h2 l).
    2:{ apply load_lot_run. unfold h2. rewrite update_other by congruence.
        now apply Hh1. }
    rewrite (mbind_run _ _ h2 h3 tt) by reflexivity.
    rewrite (mbind_run _ _ h3 h3 l') by now apply load_lot_run.
    rewrite (mbind_run _ _ h3 h4 tt); [reflexivity|].
    unfold h4. fold b. destruct b; [|reflexivity].
    now apply (pop0_run L lot).
  - intros st' [= <-]. cbn [lots realized].
    assert (Hkeep : forall a o, a <> R -> a <> lot -> a <> L ->
                                nth_error h a = Some o ->
                                nth_error h4 a = nth_error h a).
    { intros a o H1 H2 H3 Ha. rewrite (E4 a H1 H2 H3), Ha. now apply Hh1. }
    assert (Hitems : read_all as_lot h4 items = Some ls').
    { rewrite <- Eitems. apply read_all_ext. intros a Ha.
      destruct (read_all_In _ _ _ _ Eitems a Ha) as ([] & x & Hx & Hg);
        try discriminate.
      refine (Hkeep a _ _ _ _ Hx); try congruence.
      intros ->. now inversion Hnd. }
    assert (Hu4 : unchanged h0 h4).
    { apply Forall_cons_iff in Hfr. destruct Hfr as [Hlot0 _].
      assert (unchanged h0 h3).
      { unfold h3, h2. do 2 (apply unchanged_update; [assumption|]).
        eapply unchanged_trans; [exact Hu|apply unchanged_alloc]. }
      unfold h4. destruct b; [|assumption].
      now apply unchanged_update. }
    split; [exact Hu4|]. split; [exact Hne|]. split; [exact HL|].
    split; [exact HR|].
    exists (if b then items else lot :: items),
           (ra ++ [ga]).
    assert (Hlen3 : List.length h3 = S ga).
    { unfold h3, h2, h1. rewrite !update_length, length_app. cbn. lia. }
    split; [|split; [|split; [|split; [|split]]]].
    + unfold h4. destruct b; [|exact E3L].
      apply update_same. lia.
    + assert (nth_error h3 R = Some (ListO (ra ++ [ga]))).
      { unfold h3. rewrite update_other by congruence.
        apply update_same. unfold h1. rewrite length_app. cbn. lia. }
      unfold h4. destruct b; [|assumption].
      now rewrite update_other by congruence.
    + unfold h4 in *. destruct b; [exact Hitems|].
      cbn [read_all]. now rewrite E3lot, Hitems.
    + apply read_all_app.
      * rewrite <- Hrs. apply read_all_ext. intros a Ha.
        destruct (read_all_In _ _ _ _ Hrs a Ha) as ([] & x & Hx & Hg);
          try discriminate.
        refine (Hkeep a _ _ _ _ Hx); congruence.
      * cbn [read_all]. rewrite E4 by lia.
        unfold h1. rewrite nth_error_app2 by (unfold ga; lia).
        unfold ga. now rewrite Nat.sub_diag.
    + destruct b; [now inversion Hnd|exact Hnd].
    + destruct b; [now inversion Hfr|exact Hfr].
Qed.

Lemma while_loop_sim (tx : addr) (t : Tx.t) :
  nth_error h0 tx = Some (TxD t) ->
  forall fuel n h ls rs,
    rep h ls rs ->
    exists h',
      while_loop L R fuel tx (Tx.price t) (Tx.date t) (Tx.fees t) n h
      = (fmap (fun _ => tt) (value_while_loop fuel t (mkw n ls rs)), h') /\
      forall st',
        value_while_loop fuel t (mkw n ls rs) = Ok st' ->
        rep h' (lots st') (realized st').
Proof.
  intro Htx. induction fuel as [|fuel IH]; intros n h ls rs Hrep.
  - exists h. split; [reflexivity|discriminate].
  - rewrite value_while_loop_S. cbn [while_loop].
    rewrite (mbind_run _ _ _ _ _ (while_cond_sim h n ls rs Hrep)).
    destruct (value_while_cond (mkw n ls rs)).
    + destruct (while_body_sim tx t h n ls rs Hrep Htx) as (h1 & Hrun & Hrep1).
      unfold mbind at 1. rewrite Hrun.
      destruct (value_while_body t (mkw n ls rs)) as [[n1 ls1 rs1]|e|];
        cbn [fmap bind].
      * apply IH. apply (Hrep1 _ eq_refl).
      * exists h1. split; [reflexivity|discriminate].
      * exists h1. split; [reflexivity|discriminate].
    + exists h. split; [reflexivity|]. now intros st' [= <-].
Qed.

Lemma unchanged_length (h h' : store) :
  unchanged h h' -> (List.length h <= List.length h')%nat.
Proof.
  intro Hu. destruct (Nat.le_gt_cases (List.length h) (List.length h')) as [|Hlt];
    [assumption|].
  destruct (nth_error h (List.length h')) as [o|] eqn:E.
  - apply Hu in E.
    assert (nth_error h' (List.length h') = None) by now apply nth_error_None.
    congruence.
  - apply nth_error_None in E. lia.
Qed.

Lemma for_body_sim (tx : addr) (t : Tx.t) (h : store) (ls : list Lot.t)
      (rs : list Gain.t) :
  rep h ls rs -> nth_error h0 tx = Some (TxD t) ->
  exists h',
    for_body L R tx h = (fmap (fun _ => tt) (value_for_body t (ls, rs)), h') /\
    forall s',
      value_for_body t (ls, rs) = Ok s' -> rep h' (fst s') (snd s').
Proof.
  intros Hrep Htx.
  pose proof Hrep
    as (Hu & Hne & HL & HR & la & ra & HnL & HnR & Hls & Hrs & Hnd & Hfr).
  unfold for_body.
  rewrite (mbind_run _ _ _ _ _ (load_tx_run _ _ _ (Hu tx _ Htx))).
  destruct (for_body_cases t) as [Hb|[Hs|[Hb Hs]]].
  - rewrite (for_body_buy _ _ _ _ Hb), Hb. cbn [String.eqb fmap bind].
    change (String.eqb TRANSACTION_BUY TRANSACTION_BUY) with true. cbv iota.
    set (l := Lot.mk (Tx.amount t) (Tx.price t) (Tx.date t) (Tx.fees t)).
    set (a := List.length h). set (h1 := h ++ [LotD l]).
    set (h2 := update h1 L (ListO (la ++ [a]))).
    assert (Hlen : forall x o, nth_error h x = Some o -> (x < a)%nat).
    { intros x o Hx. apply nth_error_Some. congruence. }
    pose proof (Hlen _ _ HnL) as HL_lt.
    assert (Hkeep : forall x o, x <> L -> nth_error h x = Some o ->
                                nth_error h2 x = nth_error h x).
    { intros x o Hx Ho. unfold h2. rewrite update_other by congruence.
      rewrite Ho. now apply unchanged_alloc. }
    exists h2. split.
    + rewrite (mbind_run _ _ h h1 a) by reflexivity.
      apply append_run. now apply unchanged_alloc.
    + intros s' [= <-]. cbn [fst snd].
      split; [|split; [exact Hne|split; [exact HL|split; [exact HR|]]]].
      { unfold h2. apply unchanged_update; [exact HL|].
        eapply unchanged_trans; [exact Hu|apply unchanged_alloc]. }
      exists (la ++ [a]), ra.
      split; [|split; [|split; [|split; [|split]]]].
      * apply update_same. unfold h1. rewrite length_app. cbn. lia.
      * rewrite (Hkeep R _ (not_eq_sym Hne) HnR). exact HnR.
      * apply read_all_app.
        -- rewrite <- Hls. apply read_all_ext. intros x Hx.
           destruct (read_all_In _ _ _ _ Hls x Hx) as ([] & y & Hy & Hg);
             try discriminate.
           refine (Hkeep x _ _ Hy). congruence.
        -- cbn [read_all]. unfold h2. rewrite update_other by lia.
           unfold h1. rewrite nth_error_app2 by (unfold a; lia).
           unfold a. now rewrite Nat.sub_diag.
      * rewrite <- Hrs. apply read_all_ext. intros x Hx.
        destruct (read_all_In _ _ _ _ Hrs x Hx) as ([] & y & Hy & Hg);
          try discriminate.
        refine (Hkeep x _ _ Hy). congruence.
      * apply NoDup_app; [exact Hnd|repeat constructor; auto|].
        intros x Hx [Hxa|[]].
        destruct (read_all_In _ _ _ _ Hls x Hx) as (o & y & Hy & _).
        apply Hlen in Hy. lia.
      * apply Forall_app. split; [exact Hfr|]. constructor; [|constructor].
        apply unchanged_length in Hu. unfold a. lia.
  - rewrite (for_body_sale _ _ _ _ Hs), Hs.
    change (String.eqb TRANSACTION_SELL TRANSACTION_BUY) with false.
    change (String.eqb TRANSACTION_SELL TRANSACTION_SELL) with true. cbv iota.
    rewrite (mbind_run _ _ _ _ _ (load_list_run _ _ _ HnL)).
    rewrite <- (read_all_length _ _ _ _ Hls).
    destruct (while_loop_sim tx t Htx (List.length ls + 2) (Tx.amount t) h ls rs
                             Hrep) as (h1 & Hrun & Hrep1).
    exists h1. rewrite Hrun. split.
    + now destruct (value_while_loop _ t _).
    + intros s' Hs'. apply bind_Ok in Hs'. destruct Hs' as (st & Hst & [= <-]).
      now apply Hrep1.
  - rewrite (for_body_other _ _ _ Hb Hs).
    apply String.eqb_neq in Hb, Hs. rewrite Hb, Hs.
    exists h. split; [reflexivity|]. now intros s' [= <-].
Qed.

(** The list of the transactions, in the store at the call. *)
Variable T : addr.
Variable ta : list addr.
Variable txs : list Tx.t.
Hypothesis HT : nth_error h0 T = Some (ListO ta).
Hypothesis Hta : read_all as_tx h0 ta = Some txs.

Lemma for_loop_sim :
  forall fuel i h ls rs,
    rep h ls rs ->
    (i <= List.length ta)%nat -> (List.length ta < fuel + i)%nat ->
    exists h',
      for_loop L R fuel T i h
      = (fmap (fun _ => tt) (value_for_loop (skipn i txs) (ls, rs)), h') /\
      forall s',
        value_for_loop (skipn i txs) (ls, rs) = Ok s' ->
        rep h' (fst s') (snd s').
Proof.
  induction fuel as [|fuel IH]; intros i h ls rs Hrep Hi Hf; [lia|].
  pose proof Hrep as (Hu & _).
  cbn [for_loop].
  rewrite (mbind_run _ _ _ _ _ (load_list_run _ _ _ (Hu T _ HT))).
  destruct (nth_error ta i) as [tx|] eqn:Ei.
  - destruct (read_all_nth _ _ _ _ Hta i tx Ei) as ([t| | |] & x & Hx & Hg & Hn);
      try discriminate.
    injection Hg as <-. rewrite (skipn_nth _ _ _ Hn), value_for_loop_cons.
    destruct (for_body_sim tx t h ls rs Hrep Hx) as (h1 & Hrun & Hrep1).
    unfold mbind at 1. rewrite Hrun.
    destruct (value_for_body t (ls, rs)) as [[ls1 rs1]|e|]; cbn [fmap bind].
    + assert (i < List.length ta)%nat by (apply nth_error_Some; congruence).
      apply IH; [apply (Hrep1 _ eq_refl)|lia|lia].
    + exists h1. split; [reflexivity|discriminate].
    + exists h1. split; [reflexivity|discriminate].
  - apply nth_error_None in Ei.
    rewrite skipn_all2 by (rewrite (read_all_length _ _ _ _ Hta); exact Ei).
    exists h. split; [reflexivity|]. now intros s' [= <-].
Qed.

End Refinement.

(** Run on a store whose list [T] holds the transactions [txs],
    [calculate_gains] returns what it returns on the values [txs]: the same
    exception, or a reference to a list of objects that hold the same
    gains. *)
Lemma calculate_gains_refines (T : addr) (h : store) (txs : list Tx.t) :
  read_list as_tx h T = Some txs ->
  exists h',
    calculate_gains T h
    = (fmap (fun _ => S (List.length h)) (value_calculate_gains txs), h') /\
    forall gs,
      value_calculate_gains txs = Ok gs ->
      read_list as_gain h' (S (List.length h)) = Some gs.
Proof.
  unfold read_list. intro HT.
  destruct (nth_error h T) as [[| | |ta]|] eqn:ET; try discriminate.
  set (L := List.length h). set (R := S L).
  set (h2 := (h ++ [ListO []]) ++ [ListO []]).
  assert (Hrep : rep h L R h2 [] []).
  { split; [|split; [|split; [|split]]].
    - eapply unchanged_trans; apply unchanged_alloc.
    - unfold R. lia.
    - unfold L. lia.
    - unfold R, L. lia.
    - exists [], []. unfold h2, R, L.
      split; [|split; [|repeat split; constructor]].
      + rewrite nth_error_app1 by (rewrite length_app; cbn; lia).
        rewrite nth_error_app2 by lia. now rewrite Nat.sub_diag.
      + rewrite nth_error_app2 by (rewrite length_app; cbn; lia).
        rewrite length_app. cbn [List.length].
        replace (S (List.length h) - (List.length h + 1))%nat with 0%nat by lia.
        reflexivity. }
  destruct (for_loop_sim h L R T ta txs ET HT (List.length ta + 1) 0 h2 [] []
                         Hrep) as (h' & Hrun & Hrep'); [lia|lia|].
  exists h'. split.
  - unfold calculate_gains.
    rewrite (mbind_run _ _ h (h ++ [ListO []]) L) by reflexivity.
    rewrite (mbind_run _ _ (h ++ [ListO []]) h2 R).
    2:{ unfold alloc, R, L. rewrite length_app. cbn [List.length].
        now rewrite Nat.add_1_r. }
    rewrite (mbind_run _ _ h2 h2 ta).
    2:{ apply load_list_run. unfold h2. do 2 apply unchanged_alloc. exact ET. }
    unfold mbind. rewrite Hrun. cbn [skipn]. rewrite value_calculate_gains_eq.
    now destruct (value_for_loop txs ([], [])).
  - intros gs Hgs. rewrite value_calculate_gains_eq in Hgs.
    apply fmap_Ok in Hgs. destruct Hgs as ([ls rs] & Hs & ->).
    destruct (Hrep' _ Hs) as (_ & _ & _ & _ & la & ra & _ & HnR & _ & Hrs & _).
    cbn [snd] in *. now rewrite HnR.
Qed.

Lemma read_list_unchanged {A : Type} (get : obj -> option A) (h h' : store)
      (a : addr) (xs : list A) :
  unchanged h h' -> read_list get h a = Some xs -> read_list get h' a = Some xs.
Proof.
  unfold read_list. intros Hu H.
  destruct (nth_error h a) as [[| | |items]|] eqn:E; try discriminate.
  rewrite (Hu a _ E). rewrite <- H. apply read_all_ext.
  intros b Hb. destruct (read_all_In _ _ _ _ H b Hb) as (o & x & Ho & _).
  now rewrite (Hu b _ Ho).
Qed.

(** The loop of [summarize_gains] only reads. *)
Lemma summarize_loop_reads (items : list addr) :
  forall a h,
    snd (summarize_loop items a h) = h /\
    (forall gs,
        read_all as_gain h items = Some gs ->
        fst (summarize_loop items a h) = Ok (fold_left summarize_body gs a)).
Proof.
  induction items as [|x items IH]; intros a h; cbn [summarize_loop read_all].
  - split; [reflexivity|]. now intros gs [= <-].
  - unfold mbind. rewrite load_gain_eq.
    destruct (nth_error h x) as [[t|l|g|l]|]; cbn [as_gain fst snd];
      try (split; [reflexivity|discriminate]).
    destruct (IH (summarize_body a g) h) as [H1 H2]. split; [exact H1|].
    intros gs Hgs. destruct (read_all as_gain h items) as [gs'|]; [|discriminate].
    injection Hgs as <-. now apply H2.
Qed.

End HeapFacts.

(** C10: run on a store of objects, [calculate_gains] leaves every object
    that existed before the call as it was: it writes only to the two lists
    and to the lots that it creates.  So the list of the transactions still
    holds the same records with the same values after the call, and what is
    returned is what the transactions determine.  [summarize_gains] writes
    nothing at all, and what it returns is determined by the gains of the
    list it is given. *)
Theorem inputs_are_left_unchanged :
  (forall transactions h,
      Heap.unchanged h (snd (Heap.calculate_gains transactions h))) /\
  (forall transactions h txs,
      Heap.read_list Heap.as_tx h transactions = Some txs ->
      Heap.read_list Heap.as_tx (snd (Heap.calculate_gains transactions h))
                     transactions = Some txs /\
      fst (Heap.calculate_gains transactions h)
      = fmap (fun _ => S (List.length h)) (calculate_gains txs)) /\
  (forall gains h,
      snd (Heap.summarize_gains gains h) = h /\
      (forall gs,
          Heap.read_list Heap.as_gain h gains = Some gs ->
          fst (Heap.summarize_gains gains h) = Ok (summarize_gains gs))).
Proof.
  split; [|split].
  - intros transactions h.
    apply (HeapFacts.calculate_gains_owned transactions h).
  - intros transactions h txs Hr. split.
    + apply (HeapFacts.read_list_unchanged _ h); [|exact Hr].
      apply (HeapFacts.calculate_gains_owned transactions h).
    + destruct (HeapFacts.calculate_gains_refines transactions h txs Hr)
        as (h' & -> & _). reflexivity.
  - intros gains h. unfold Heap.summarize_gains, Heap.read_list.
    unfold Heap.mbind. rewrite HeapFacts.load_list_eq.
    destruct (nth_error h gains) as [[t|l|g|items]|]; cbn [fst snd];
      try (split; [reflexivity|discriminate]).
    destruct (HeapFacts.summarize_loop_reads items (mkt 0 0 0 0 0) h) as [H1 H2].
    destruct (Heap.summarize_loop items (mkt 0 0 0 0 0) h) as [[a|e|] h1];
      cbn [fst snd] in *; subst h1; (split; [reflexivity|]);
      intros gs Hgs; specialize (H2 gs Hgs); try discriminate.
    injection H2 as ->. reflexivity.
Qed.

(** * The theorems at work on concrete ledgers *)


Lemma fifo_order_witness :
  ascending (map Tx.date [buy 0 1 100 0; buy 1 1 200 0; sale 400 (3 # 2) 300 0])
  /\
  exists new rest,
    [Gain.mk 400 0 (py_round 1 8) (py_round 100 2) (py_round 300 2)
             (py_round 200 2) 400 Long LONG_TERM_TAX_RATE (py_round 30 2);
     Gain.mk 400 1 (py_round (1 # 2) 8) (py_round 100 2) (py_round 150 2)
             (py_round 50 2) 399 Long LONG_TERM_TAX_RATE (py_round (15 # 2) 2)]
    = [] ++ new /\
    map Lot.date [Lot.mk 1 100 0 0; Lot.mk 1 200 1 0]
    = map Gain.buy_date new ++ rest /\
    ascending (map Gain.buy_date new).
Proof.
  assert (H : ascending
                (map Tx.date
                     [buy 0 1 100 0; buy 1 1 200 0; sale 400 (3 # 2) 300 0])).
  { cbn. repeat constructor; lia. }
  split; [exact H|].
  apply (proj2 (fifo_order _ H)
               [buy 0 1 100 0; buy 1 1 200 0] (sale 400 (3 # 2) 300 0) []
               [Lot.mk 1 100 0 0; Lot.mk 1 200 1 0] []
               [Lot.mk (1 # 2) 200 1 0]).
  - reflexivity.
  - reflexivity.
  - vm_compute. reflexivity.
Defined.

Lemma holding_period_and_term_witness :
  exists gs,
    calculate_gains [buy 0 1 100 0; sale 365 (1 # 2) 300 0;
                     sale 366 (1 # 2) 300 0] = Ok gs /\
    forall g, In g gs ->
      gain_from [buy 0 1 100 0; sale 365 (1 # 2) 300 0; sale 366 (1 # 2) 300 0] g /\
      Gain.holding_days g = (Gain.sell_date g - Gain.buy_date g)%Z /\
      (Gain.term g = Long <-> (Gain.holding_days g > 365)%Z) /\
      (Gain.holding_days g = 365%Z -> Gain.term g = Short) /\
      (Gain.holding_days g = 366%Z -> Gain.term g = Long).
Proof.
  eexists. split.
  - vm_compute. reflexivity.
  - apply (holding_period_and_term
             [buy 0 1 100 0; sale 365 (1 # 2) 300 0; sale 366 (1 # 2) 300 0]).
    vm_compute. reflexivity.
Defined.


Lemma other_kinds_are_skipped_witness :
  Tx.type (Tx.mk 1 "TRANSFER" 1 100 0) <> TRANSACTION_BUY /\
  Tx.type (Tx.mk 1 "TRANSFER" 1 100 0) <> TRANSACTION_SELL /\
  calculate_gains ([buy 0 1 100 0] ++ Tx.mk 1 "TRANSFER" 1 100 0 :: [sale 2 1 150 0])
  = calculate_gains ([buy 0 1 100 0] ++ [sale 2 1 150 0]).
Proof.
  assert (Hb : Tx.type (Tx.mk 1 "TRANSFER" 1 100 0) <> TRANSACTION_BUY)
    by discriminate.
  assert (Hs : Tx.type (Tx.mk 1 "TRANSFER" 1 100 0) <> TRANSACTION_SELL)
    by discriminate.
  split; [exact Hb|]. split; [exact Hs|].
  apply (other_kinds_are_skipped [buy 0 1 100 0] [sale 2 1 150 0] _ Hb Hs).
Defined.




(** * More on the gain aggregator *)

(** The deductible loss is determined by the net and by the losses. *)
Lemma deductible_loss_value (gs : list Gain.t) :
  (0 <= net_of gs /\ deductible_loss (summarize_gains gs) == 0) \/
  (net_of gs < 0 /\
   ((- losses_of gs <= MAX_CAPITAL_LOSS_DEDUCTION /\
     deductible_loss (summarize_gains gs) == - losses_of gs) \/
    (MAX_CAPITAL_LOSS_DEDUCTION < - losses_of gs /\
     deductible_loss (summarize_gains gs) == MAX_CAPITAL_LOSS_DEDUCTION))).
Proof.
  destruct (Qlt_le_dec (net_of gs) 0) as [Hn|Hn].
  - right. split; [exact Hn|].
    destruct (deductible_loss_Qmin gs Hn) as [Hd _].
    destruct (Qlt_le_dec MAX_CAPITAL_LOSS_DEDUCTION (- losses_of gs)) as [Hc|Hc].
    + right. split; [exact Hc|]. rewrite Hd. apply Q.min_r. lra.
    + left. split; [exact Hc|]. rewrite Hd. now apply Q.min_l.
  - left. split; [exact Hn|].
    destruct (deductible_loss_cases gs) as [Hd _]. now rewrite (Hd Hn).
Qed.


(** * More on the ledger *)

Lemma round_half_even_nonneg (y : Q) : 0 <= y -> (0 <= round_half_even y)%Z.
Proof.
  intro H. unfold round_half_even.
  assert (Hf : (0 <= Qfloor y)%Z).
  { change 0%Z with (Qfloor 0). now apply Qfloor_resp_le. }
  destruct (Qltb _ (1 # 2)); [exact Hf|].
  destruct (Qltb (1 # 2) _); [lia|].
  destruct (Z.even (Qfloor y)); lia.
Qed.

Lemma py_round_nonneg (x : Q) (ndigits : nat) : 0 <= x -> 0 <= py_round x ndigits.
Proof.
  intro H. unfold py_round.
  set (s := Z.to_pos (10 ^ Z.of_nat ndigits)).
  assert (Hy : 0 <= x * inject_Z (Zpos s)).
  { apply Qmult_le_0_compat; [exact H|]. unfold Qle. cbn. lia. }
  apply round_half_even_nonneg in Hy. unfold Qle. cbn. lia.
Qed.

Lemma py_round_zero (ndigits : nat) : py_round 0 ndigits == 0.
Proof. unfold py_round, Qeq. cbn. reflexivity. Qed.

Section GainFacts.

Variable round_ : Q -> nat -> Q.

(** A property of the gains emitted by the iterations of the [while] loop is
    a property of all the gains of a run. *)
Lemma for_loop_gains (P : Gain.t -> Prop) :
  (forall tx st st' g,
      while_body round_ tx st = Ok st' ->
      realized st' = realized st ++ [g] -> P g) ->
  forall txs l r l' r',
    Forall P r -> for_loop round_ txs (l, r) = Ok (l', r') -> Forall P r'.
Proof.
  intros Hbody.
  induction txs as [|tx txs IH]; intros l r l' r' Hr Hf; cbn [for_loop] in Hf.
  - now injection Hf as <- <-.
  - apply bind_Ok in Hf. destruct Hf as ([l1 r1] & Hb & Hf).
    apply (IH l1 r1 l' r'); [|exact Hf]. clear Hf IH.
    destruct (for_body_cases tx) as [Hbuy|[Hs|[Hbuy Hs]]].
    + rewrite (for_body_buy _ _ _ _ Hbuy) in Hb. now injection Hb as <- <-.
    + rewrite (for_body_sale _ _ _ _ Hs) in Hb.
      apply bind_Ok in Hb. destruct Hb as (st & Hw & Hb). injection Hb as <- <-.
      apply (while_loop_rule round_ (fun st => Forall P (realized st)) tx) in Hw.
      * apply Hw.
      * intros st1 st2 H1 _ H2.
        destruct (while_body_Ok _ _ _ _ H2)
          as (lot & rest & g & _ & _ & _ & _ & _ & Hg & _).
        rewrite Hg. apply Forall_app. split; [exact H1|].
        constructor; [|constructor]. now apply (Hbody tx st1 st2).
      * exact Hr.
    + rewrite (for_body_other _ _ _ Hbuy Hs) in Hb. now injection Hb as <- <-.
Qed.

(** The gains of a run extend the gains it started with. *)
Lemma for_loop_extends (txs : list Tx.t) :
  forall l r l' r',
    for_loop round_ txs (l, r) = Ok (l', r') -> exists more, r' = r ++ more.
Proof.
  induction txs as [|tx txs IH]; intros l r l' r' Hf; cbn [for_loop] in Hf.
  - injection Hf as <- <-. exists []. now rewrite app_nil_r.
  - apply bind_Ok in Hf. destruct Hf as ([l1 r1] & Hb & Hf).
    destruct (for_body_front round_ tx l l1 r r1 Hb) as (new & _ & -> & _).
    destruct (IH _ _ _ _ Hf) as (more & ->).
    exists (new ++ more). now rewrite app_assoc.
Qed.

End GainFacts.

(** What an iteration records as tax. *)
Lemma while_body_tax (tx : Tx.t) (st st' : wstate) (g : Gain.t) :
  while_body py_round tx st = Ok st' ->
  realized st' = realized st ++ [g] ->
  Gain.tax_rate g
  = (match Gain.term g with
     | Long => LONG_TERM_TAX_RATE
     | Short => SHORT_TERM_TAX_RATE
     end) /\
  0 <= Gain.tax_owed g /\
  (Gain.gain g < 0 -> Gain.tax_owed g == 0).
Proof.
  unfold while_body. destruct (lots st) as [|lot rest]; [discriminate|].
  intros H Hg.
  apply bind_Ok in H. destruct H as (q1 & _ & H).
  apply bind_Ok in H. destruct H as (q2 & _ & H).
  injection H as <-. cbn [realized] in Hg.
  apply app_inv_head in Hg. injection Hg as <-.
  cbn [Gain.tax_rate Gain.term Gain.tax_owed Gain.gain].
  set (raw := py_min (amount_to_sell st) (Lot.amount lot) * Tx.price tx -
              py_min (amount_to_sell st) (Lot.amount lot) * Lot.price lot -
              Tx.fees tx * q1 - Lot.fees lot * q2).
  set (rate := if (365 <? Tx.date tx - Lot.date lot)%Z
               then LONG_TERM_TAX_RATE else SHORT_TERM_TAX_RATE).
  assert (Hrate : 0 <= rate).
  { unfold rate, LONG_TERM_TAX_RATE, SHORT_TERM_TAX_RATE.
    destruct (365 <? Tx.date tx - Lot.date lot)%Z; lra. }
  split; [|split].
  - unfold rate. now destruct (365 <? Tx.date tx - Lot.date lot)%Z.
  - apply py_round_nonneg. destruct (Qltb 0 raw) eqn:E; [|lra].
    apply Qltb_lt in E. apply Qmult_le_0_compat; lra.
  - intro Hneg. destruct (Qltb 0 raw) eqn:E; [|apply py_round_zero].
    apply Qltb_lt in E.
    pose proof (py_round_nonneg raw 2 (Qlt_le_weak _ _ E)). lra.
Qed.

(** Every gain returned by [calculate_gains] carries the rate of its term,
    0.15 for [Long] and 0.24 for [Short], and a tax that is not negative; a
    gain recorded as a loss owes no tax. *)
Theorem tax_is_owed_on_gains_only (txs : list Tx.t) (gs : list Gain.t) :
  calculate_gains txs = Ok gs ->
  forall g, In g gs ->
    Gain.tax_rate g
    = (match Gain.term g with
       | Long => LONG_TERM_TAX_RATE
       | Short => SHORT_TERM_TAX_RATE
       end) /\
    0 <= Gain.tax_owed g /\
    (Gain.gain g < 0 -> Gain.tax_owed g == 0).
Proof.
  unfold calculate_gains, calculate_gains_with, ledger. intro H.
  apply bind_Ok in H. destruct H as ([l r] & Hf & H). injection H as <-.
  cbn [snd]. intros g Hg.
  apply (for_loop_gains py_round _ while_body_tax txs [] [] l r) in Hf;
    [|constructor].
  rewrite Forall_forall in Hf. now apply Hf.
Qed.


(** ** Sales that consume nothing, and lots of amount zero *)

Lemma ledger_app (round_ : Q -> nat -> Q) (pre post : list Tx.t) :
  ledger round_ (pre ++ post) =
  (s <- ledger round_ pre ;; for_loop round_ post s).
Proof. unfold ledger. apply for_loop_app. Qed.

Lemma calculate_gains_app (pre post : list Tx.t) :
  calculate_gains (pre ++ post) =
  (s <- ledger py_round pre ;; fmap snd (for_loop py_round post s)).
Proof.
  unfold calculate_gains, calculate_gains_with. rewrite ledger_app.
  now destruct (ledger py_round pre).
Qed.

(** A sale of an amount that is zero or negative consumes nothing: the
    queue and the gains are left as they are, and the run returns what it
    returns without that sale. *)
Theorem sale_of_nothing_is_skipped (pre post : list Tx.t) (tx : Tx.t) :
  Tx.type tx = TRANSACTION_SELL -> Tx.amount tx <= 0 ->
  (forall s, for_body py_round tx s = Ok s) /\
  calculate_gains (pre ++ tx :: post) = calculate_gains (pre ++ post).
Proof.
  intros Hs Ha.
  assert (Hskip : forall s, for_body py_round tx s = Ok s).
  { intros [l r]. rewrite (for_body_sale _ _ _ _ Hs).
    replace (List.length l + 2)%nat with (S (List.length l + 1)) by lia.
    cbn [while_loop].
    replace (while_cond (mkw (Tx.amount tx) l r)) with false; [reflexivity|].
    symmetry. apply while_cond_false. now left. }
  split; [exact Hskip|].
  rewrite !calculate_gains_app. cbn [for_loop].
  destruct (ledger py_round pre) as [s| |]; cbn [bind]; [|reflexivity..].
  now rewrite Hskip.
Qed.

(** When the lot at the front of the queue has an amount of zero (a purchase
    of nothing), the next sale of a positive amount raises
    [ZeroDivisionError], and so does the run. *)
Theorem sale_from_an_empty_lot_raises (pre post : list Tx.t) (tx : Tx.t)
        (lot : Lot.t) (rest : list Lot.t) (r : list Gain.t) :
  ledger py_round pre = Ok (lot :: rest, r) ->
  Lot.amount lot == 0 ->
  Tx.type tx = TRANSACTION_SELL -> 0 < Tx.amount tx ->
  calculate_gains (pre ++ tx :: post) = Raise ZeroDivisionError.
Proof.
  intros Hpre Hz Hs Ha.
  rewrite calculate_gains_app, Hpre. cbn [bind for_loop].
  rewrite (for_body_sale _ _ _ _ Hs).
  replace (List.length (lot :: rest) + 2)%nat
    with (S (List.length (lot :: rest) + 1)) by lia.
  cbn [while_loop].
  replace (while_cond (mkw (Tx.amount tx) (lot :: rest) r)) with true.
  2:{ symmetry. apply while_cond_true. cbn. split; [exact Ha|discriminate]. }
  unfold while_body. cbn [lots amount_to_sell].
  rewrite py_div_ok by (intro E; rewrite E in Ha; lra).
  cbn [bind]. unfold py_div at 1.
  now rewrite (Qeq_eq_bool _ _ Hz).
Qed.

(** ** Runs on a longer input *)

(** The gains of the transactions read so far are final: on a longer input,
    the run returns them followed by more gains; and an exception raised on
    the transactions read so far is raised on every longer input. *)
Theorem gains_of_a_prefix_are_kept (pre post : list Tx.t) :
  (forall gs gs',
      calculate_gains pre = Ok gs -> calculate_gains (pre ++ post) = Ok gs' ->
      exists more, gs' = gs ++ more) /\
  (forall e,
      calculate_gains pre = Raise e -> calculate_gains (pre ++ post) = Raise e).
Proof.
  split.
  - intros gs gs' Hpre H. rewrite calculate_gains_app in H.
    unfold calculate_gains, calculate_gains_with in Hpre.
    destruct (ledger py_round pre) as [[l r]| |]; try discriminate.
    cbn [bind snd] in *. injection Hpre as <-.
    apply fmap_Ok in H. destruct H as ([l' r'] & Hf & ->).
    now apply (for_loop_extends py_round post l r l' r').
  - intros e Hpre. rewrite calculate_gains_app.
    unfold calculate_gains, calculate_gains_with in Hpre.
    destruct (ledger py_round pre) as [[l r]| |]; try discriminate.
    cbn [bind] in *. exact Hpre.
Qed.

(** ** Holding periods on sorted transactions *)

Lemma queue_after_Forall (P : Lot.t -> Prop) (st : wstate) :
  (forall l a, P l -> P (Lot.set_amount l a)) ->
  Forall P (lots st) -> Forall P (queue_after st).
Proof.
  intros HP H. destruct (lots st) as [|lot rest] eqn:Hl.
  - unfold queue_after. rewrite Hl. constructor.
  - apply Forall_cons_iff in H. destruct H as [Hlot Hrest].
    destruct (queue_after_length st lot rest Hl) as [->|(-> & _)]; [exact Hrest|].
    constructor; [now apply HP|exact Hrest].
Qed.

Lemma for_loop_holding_days (txs : list Tx.t) :
  forall l r l' r',
    ascending (map Lot.date l ++ map Tx.date txs) ->
    Forall (fun g => (0 <= Gain.holding_days g)%Z) r ->
    for_loop py_round txs (l, r) = Ok (l', r') ->
    Forall (fun g => (0 <= Gain.holding_days g)%Z) r'.
Proof.
  induction txs as [|tx txs IH]; intros l r l' r' Ha Hr Hf; cbn [for_loop] in Hf.
  - now injection Hf as <- <-.
  - apply bind_Ok in Hf. destruct Hf as ([l1 r1] & Hb & Hf).
    cbn [map] in Ha.
    apply (IH l1 r1 l' r'); [|clear Hf IH|exact Hf].
    { now apply (for_body_sorted py_round tx _ l l1 r r1). }
    destruct (for_body_cases tx) as [Hbuy|[Hs|[Hbuy Hs]]].
    + rewrite (for_body_buy _ _ _ _ Hbuy) in Hb. now injection Hb as <- <-.
    + rewrite (for_body_sale _ _ _ _ Hs) in Hb.
      apply bind_Ok in Hb. destruct Hb as (st & Hw & Hb). injection Hb as <- <-.
      apply (while_loop_rule py_round
               (fun st => Forall (fun l => (Lot.date l <= Tx.date tx)%Z) (lots st)
                          /\ Forall (fun g => (0 <= Gain.holding_days g)%Z)
                                    (realized st)) tx) in Hw.
      * apply Hw.
      * intros st1 st2 [H1 H2] _ Hbody.
        destruct (while_body_Ok _ _ _ _ Hbody)
          as (lot & rest & g & El & _ & _ & _ & Eq & Eg & _ & _ & _ & Eh & _).
        split.
        -- rewrite Eq. now apply queue_after_Forall.
        -- rewrite Eg. apply Forall_app. split; [exact H2|].
           constructor; [|constructor]. rewrite Eh. rewrite El in H1.
           apply Forall_cons_iff in H1. lia.
      * cbn [lots realized]. split; [|exact Hr].
        apply ascending_app in Ha. destruct Ha as (_ & _ & Hle).
        apply Forall_forall. intros x Hx. apply Hle; [now apply in_map|now left].
    + rewrite (for_body_other _ _ _ Hbuy Hs) in Hb. now injection Hb as <- <-.
Qed.

(** On transactions in ascending order of date, no gain has a negative
    holding period: a lot is never sold before the date it was bought. *)
Theorem holding_days_are_not_negative (txs : list Tx.t) (gs : list Gain.t) :
  ascending (map Tx.date txs) ->
  calculate_gains txs = Ok gs ->
  forall g, In g gs -> (0 <= Gain.holding_days g)%Z.
Proof.
  intros Ha H. unfold calculate_gains, calculate_gains_with, ledger in H.
  apply bind_Ok in H. destruct H as ([l r] & Hf & H). injection H as <-.
  apply (for_loop_holding_days txs [] [] l r Ha) in Hf; [|constructor].
  cbn [snd]. now apply Forall_forall.
Qed.

(** ** Fees *)


(** * Loading the transactions *)

Module LoadFacts.

Import Load.

(** ** The stable sort *)

Section Sorting.

Context {A : Type}.
Variable key : A -> Z.

Lemma insert_perm (x : A) (l : list A) : Permutation (insert key x l) (x :: l).
Proof.
  induction l as [|y l IH]; cbn [insert]; [reflexivity|].
  destruct (key x <=? key y)%Z; [reflexivity|].
  rewrite IH. apply perm_swap.
Qed.

Lemma sorted_perm (l : list A) : Permutation (sorted key l) l.
Proof.
  induction l as [|x l IH]; cbn [sorted]; [reflexivity|].
  rewrite insert_perm. now constructor.
Qed.

Lemma insert_ascending (x : A) (l : list A) :
  ascending (map key l) -> ascending (map key (insert key x l)).
Proof.
  unfold ascending. induction l as [|y l IH]; cbn [insert map]; intro H.
  - repeat constructor.
  - inversion H as [|? ? Hs Hf]; subst.
    destruct (Z.leb_spec (key x) (key y)) as [Hle|Hlt]; cbn [map].
    + constructor; [exact H|]. constructor; [exact Hle|].
      eapply Forall_impl; [|exact Hf]. cbn. intros; lia.
    + constructor; [now apply IH|].
      apply Forall_forall. intros d Hd.
      apply (Permutation_in (l' := map key (x :: l))) in Hd;
        [|apply Permutation_map, insert_perm].
      destruct Hd as [<-|Hd]; [lia|].
      rewrite Forall_forall in Hf. now apply Hf.
Qed.

Lemma sorted_ascending (l : list A) : ascending (map key (sorted key l)).
Proof.
  induction l as [|x l IH]; cbn [sorted]; [constructor|].
  now apply insert_ascending.
Qed.

(** The elements of a given key are left in the order they had. *)
Lemma with_key_insert (d : Z) (x : A) (l : list A) :
  with_key key d (insert key x l) = with_key key d (x :: l).
Proof.
  unfold with_key. induction l as [|y l IH]; cbn [insert]; [reflexivity|].
  destruct (Z.leb_spec (key x) (key y)) as [Hle|Hlt]; [reflexivity|].
  cbn [filter] in *. rewrite IH.
  destruct (Z.eqb_spec (key x) d) as [Hx|Hx]; [|reflexivity].
  destruct (Z.eqb_spec (key y) d) as [Hy|Hy]; [lia|reflexivity].
Qed.

Lemma with_key_sorted (d : Z) (l : list A) :
  with_key key d (sorted key l) = with_key key d l.
Proof.
  induction l as [|x l IH]; cbn [sorted]; [reflexivity|].
  rewrite with_key_insert. unfold with_key in *. cbn [filter]. now rewrite IH.
Qed.

Lemma with_key_In (d : Z) (x : A) (l : list A) :
  In x (with_key key d l) <-> In x l /\ key x = d.
Proof.
  unfold with_key. rewrite filter_In. now rewrite Z.eqb_eq.
Qed.

(** Two lists in ascending order of key that hold, for every key, the same
    elements in the same order are the same list. *)
Lemma ascending_unique (l1 l2 : list A) :
  ascending (map key l1) -> ascending (map key l2) ->
  (forall d, with_key key d l1 = with_key key d l2) ->
  l1 = l2.
Proof.
  unfold ascending. revert l2.
  induction l1 as [|x l1 IH]; intros l2 H1 H2 Hk.
  - destruct l2 as [|y l2]; [reflexivity|].
    specialize (Hk (key y)). unfold with_key in Hk. cbn [filter] in Hk.
    rewrite Z.eqb_refl in Hk. discriminate.
  - destruct l2 as [|y l2].
    { specialize (Hk (key x)). unfold with_key in Hk. cbn [filter] in Hk.
      rewrite Z.eqb_refl in Hk. discriminate. }
    cbn [map] in H1, H2.
    inversion H1 as [|? ? Hs1 Hf1]; subst.
    inversion H2 as [|? ? Hs2 Hf2]; subst.
    rewrite Forall_forall in Hf1, Hf2.
    assert (Hxy : (key y <= key x)%Z).
    { assert (Hin : In x (with_key key (key x) (y :: l2))).
      { rewrite <- Hk. apply with_key_In. split; [now left|reflexivity]. }
      apply with_key_In in Hin. destruct Hin as [[->|Hin] _]; [lia|].
      apply Hf2. now apply in_map. }
    assert (Hyx : (key x <= key y)%Z).
    { assert (Hin : In y (with_key key (key y) (x :: l1))).
      { rewrite Hk. apply with_key_In. split; [now left|reflexivity]. }
      apply with_key_In in Hin. destruct Hin as [[->|Hin] _]; [lia|].
      apply Hf1. now apply in_map. }
    assert (E : key x = key y) by lia.
    pose proof (Hk (key x)) as Hx. unfold with_key in Hx. cbn [filter] in Hx.
    rewrite <- E, Z.eqb_refl in Hx. injection Hx as -> Hx.
    f_equal. apply IH; [exact Hs1|exact Hs2|].
    intro d. specialize (Hk d). unfold with_key in *. cbn [filter] in Hk.
    destruct (key y =? d)%Z; [now injection Hk|exact Hk].
Qed.

End Sorting.

(** What [sorted] returns is the only arrangement in ascending order of key
    that keeps the elements of equal key in the order of the input. *)
Theorem sorted_is_the_stable_order {A : Type} (key : A -> Z) (l l' : list A) :
  ascending (map key l') ->
  (forall d, with_key key d l' = with_key key d l) ->
  l' = sorted key l.
Proof.
  intros Ha Hk. apply (ascending_unique key); [exact Ha|apply sorted_ascending|].
  intro d. now rewrite with_key_sorted.
Qed.

(** ** The loop over the rows *)

Section Loading.

Variable strptime : string -> string -> option Z.
Variable float : string -> option Q.
Variable upper : string -> string.

#[local] Abbreviation build_tx := (build_tx strptime float upper).
#[local] Abbreviation read_rows := (read_rows strptime float upper).
#[local] Abbreviation load_transactions :=
  (load_transactions strptime float upper).
#[local] Abbreviation row_ok := (row_ok strptime float).

Lemma lbind_Loaded {X Y : Type} (m : loaded X) (k : X -> loaded Y) (y : Y) :
  lbind m k = Loaded y -> exists x, m = Loaded x /\ k x = Loaded y.
Proof. destruct m as [x|e]; cbn; [eauto|discriminate]. Qed.

Lemma read_rows_Loaded (rows : list row) :
  forall acc txs,
    read_rows rows acc = Loaded txs <->
    exists new,
      Forall2 (fun r tx => build_tx r = Loaded tx) rows new /\
      txs = acc ++ new.
Proof.
  induction rows as [|r rows IH]; intros acc txs; cbn [Load.read_rows].
  - split.
    + intros [= <-]. exists []. split; [constructor|now rewrite app_nil_r].
    + intros (new & Hf & ->). inversion Hf. now rewrite app_nil_r.
  - split.
    + intro H. apply lbind_Loaded in H. destruct H as (tx & Hb & H).
      apply IH in H. destruct H as (new & Hf & ->).
      exists (tx :: new). split; [now constructor|now rewrite <- app_assoc].
    + intros (new & Hf & ->). inversion Hf as [|? tx ? new' Hb Hf']; subst.
      rewrite Hb. cbn [lbind]. apply IH. exists new'.
      split; [exact Hf'|now rewrite <- app_assoc].
Qed.

Lemma read_rows_Failed (pre post : list row) (r : row) (e : load_exn) :
  Forall (fun r' => exists tx, build_tx r' = Loaded tx) pre ->
  build_tx r = Failed e ->
  forall acc, read_rows (pre ++ r :: post) acc = Failed e.
Proof.
  intros Hpre Hr. induction Hpre as [|r' pre [tx Htx] _ IH]; intro acc;
    cbn [app Load.read_rows].
  - now rewrite Hr.
  - rewrite Htx. cbn [lbind]. apply IH.
Qed.

(** A row is turned into a transaction exactly when it has the five columns
    and its texts are accepted. *)
Lemma build_tx_Loaded (r : row) :
  (exists tx, build_tx r = Loaded tx) <-> row_ok r.
Proof.
  unfold Load.build_tx, Load.row_ok, parse_date, py_upper, py_float, subscript.
  split.
  - intros [tx H].
    destruct (lookup DATE_HEADER r) as [[ds|]|]; [|discriminate|discriminate].
    cbn [lbind] in H.
    destruct (strptime ds DATE_FMT_STRING) as [d|] eqn:Ed; [|discriminate].
    cbn [lbind parsed] in H.
    destruct (lookup TRANSACTION_TYPE_HEADER r) as [[ts|]|];
      [|discriminate|discriminate].
    cbn [lbind] in H.
    destruct (lookup AMOUNT_BITCOIN_HEADER r) as [[az|]|];
      [|discriminate|discriminate].
    cbn [lbind] in H.
    destruct (float az) as [a|] eqn:Ea; [|discriminate]. cbn [lbind parsed] in H.
    destruct (lookup PRICE_DOLLARS_HEADER r) as [[pz|]|];
      [|discriminate|discriminate].
    cbn [lbind] in H.
    destruct (float pz) as [p|] eqn:Ep; [|discriminate]. cbn [lbind parsed] in H.
    destruct (lookup FEES_HEADER r) as [[fz|]|]; [|discriminate|discriminate].
    cbn [lbind] in H.
    destruct (float fz) as [f|] eqn:Ef; [|discriminate].
    exists ds, ts, az, pz, fz, d, a, p, f. repeat split; assumption.
  - intros (ds & ts & az & pz & fz & d & a & p & f
            & -> & -> & -> & -> & -> & Hd & Ha & Hp & Hf).
    cbn [lbind]. rewrite Hd. cbn [lbind parsed]. rewrite Ha. cbn [lbind parsed].
    rewrite Hp. cbn [lbind parsed]. rewrite Hf. cbn [lbind parsed]. eauto.
Qed.

Lemma load_transactions_Loaded (rows : list row) (txs : list Tx.t) :
  load_transactions rows = Loaded txs ->
  exists built,
    Forall2 (fun r tx => build_tx r = Loaded tx) rows built /\
    txs = sorted Tx.date built.
Proof.
  unfold Load.load_transactions. intro H.
  apply lbind_Loaded in H. destruct H as (built & Hr & [= <-]).
  apply read_rows_Loaded in Hr. destruct Hr as (new & Hf & ->).
  cbn [app]. now exists new.
Qed.

(** When the load succeeds, there is one transaction per row, built from
    it; the transactions returned are these, rearranged in ascending order
    of date, and the transactions of a same date are in the order of their
    rows. *)
Theorem load_transactions_sorts_by_date (rows : list row) (txs : list Tx.t) :
  load_transactions rows = Loaded txs ->
  exists built,
    Forall2 (fun r tx => build_tx r = Loaded tx) rows built /\
    Permutation txs built /\
    ascending (map Tx.date txs) /\
    (forall d, with_key Tx.date d txs = with_key Tx.date d built).
Proof.
  intro H. apply load_transactions_Loaded in H. destruct H as (built & Hf & ->).
  exists built. split; [exact Hf|]. split; [apply sorted_perm|].
  split; [apply sorted_ascending|]. intro d. apply with_key_sorted.
Qed.

(** Rows that are already in ascending order of date are loaded in
    the order of the file. *)
Theorem load_transactions_keeps_date_order (rows : list row)
        (built : list Tx.t) :
  Forall2 (fun r tx => build_tx r = Loaded tx) rows built ->
  ascending (map Tx.date built) ->
  load_transactions rows = Loaded built.
Proof.
  intros Hf Ha. unfold Load.load_transactions.
  assert (Hr : read_rows rows [] = Loaded built).
  { apply read_rows_Loaded. now exists built. }
  rewrite Hr. cbn [lbind]. f_equal. symmetry.
  apply (ascending_unique Tx.date); [exact Ha|apply sorted_ascending|].
  intro d. now rewrite with_key_sorted.
Qed.

(** The load succeeds exactly when every row has the five columns and
    texts that the parsers accept. *)
Theorem load_transactions_succeeds_iff (rows : list row) :
  (exists txs, load_transactions rows = Loaded txs) <-> Forall row_ok rows.
Proof.
  unfold Load.load_transactions. split.
  - intros [txs H]. apply lbind_Loaded in H. destruct H as (built & Hr & _).
    apply read_rows_Loaded in Hr. destruct Hr as (new & Hf & _).
    clear built. induction Hf as [|r tx rows new Hb _ IH]; constructor.
    + apply build_tx_Loaded. now exists tx.
    + exact IH.
  - intro H.
    assert (Hb : exists built,
               Forall2 (fun r tx => build_tx r = Loaded tx) rows built).
    { induction H as [|r rows Hr _ [built IH]]; [exists []; constructor|].
      apply build_tx_Loaded in Hr. destruct Hr as [tx Htx].
      exists (tx :: built). now constructor. }
    destruct Hb as [built Hb]. exists (sorted Tx.date built).
    assert (Hr : read_rows rows [] = Loaded built).
    { apply read_rows_Loaded. now exists built. }
    now rewrite Hr.
Qed.

(** When a row cannot be turned into a transaction, and the rows before
    it can, the load raises the exception of that row, whatever the rows
    that follow; no transaction is returned. *)
Theorem load_transactions_fails_on_first_bad_row (pre post : list row)
        (r : row) (e : load_exn) :
  Forall row_ok pre ->
  build_tx r = Failed e ->
  load_transactions (pre ++ r :: post) = Failed e.
Proof.
  intros Hpre Hr. unfold Load.load_transactions.
  rewrite (read_rows_Failed pre post r e); [reflexivity| |exact Hr].
  eapply Forall_impl; [|exact Hpre]. intros r' Hr'. now apply build_tx_Loaded.
Qed.

(** A row without the key DATE, which the reader yields when the heading
    line has no such column, raises [KeyError]. *)
Lemma build_tx_missing_date (r : row) :
  lookup DATE_HEADER r = None -> build_tx r = Failed (KeyError DATE_HEADER).
Proof. intro H. unfold Load.build_tx, subscript. now rewrite H. Qed.

(** A line that ends after a date that is accepted raises [AttributeError]:
    its cell TYPE is [None]. *)
Lemma build_tx_short_row (date_str : string) (date : Z) :
  strptime date_str DATE_FMT_STRING = Some date ->
  build_tx (short_row date_str) = Failed AttributeError.
Proof.
  intro H. unfold Load.build_tx, subscript, short_row.
  cbn [lookup String.eqb DATE_HEADER TRANSACTION_TYPE_HEADER].
  cbn. now rewrite H.
Qed.

(** The transactions that are loaded, whatever the order of the rows
    in the file, keep the queue of open lots of [calculate_gains] in
    ascending order of acquisition date at every point of its run, and no
    gain of the run has a negative holding period. *)
Theorem loaded_transactions_keep_queue_sorted (rows : list row)
        (txs : list Tx.t) :
  load_transactions rows = Loaded txs ->
  (forall q, observed py_round txs ([], []) q -> ascending (map Lot.date q)) /\
  (forall gs g,
      calculate_gains txs = Ok gs -> In g gs -> (0 <= Gain.holding_days g)%Z).
Proof.
  intro H. apply load_transactions_Loaded in H. destruct H as (built & _ & ->).
  pose proof (sorted_ascending Tx.date built) as Ha. split.
  - intros q Ho. now apply (observed_sorted py_round _ ([], []) q Ho).
  - intros gs g Hg Hin.
    unfold calculate_gains, calculate_gains_with, ledger in Hg.
    apply bind_Ok in Hg. destruct Hg as ([l r] & Hf & Hg). injection Hg as <-.
    apply (for_loop_holding_days _ [] [] l r Ha) in Hf; [|constructor].
    cbn [snd] in Hin. rewrite Forall_forall in Hf. now apply Hf.
Qed.

End Loading.

End LoadFacts.

(** * The further properties at work on concrete inputs *)

Lemma holding_days_are_not_negative_witness :
  exists gs,
    calculate_gains [buy 0 1 100 0; buy 3 1 200 0; sale 10 (3 # 2) 300 0]
    = Ok gs /\
    forall g, In g gs -> (0 <= Gain.holding_days g)%Z.
Proof.
  eexists. split.
  - vm_compute. reflexivity.
  - apply (holding_days_are_not_negative
             [buy 0 1 100 0; buy 3 1 200 0; sale 10 (3 # 2) 300 0]).
    + cbn. repeat constructor; lia.
    + vm_compute. reflexivity.
Defined.

Lemma sale_of_nothing_is_skipped_witness :
  (forall s, for_body py_round (sale 1 0 150 0) s = Ok s) /\
  calculate_gains ([buy 0 1 100 0] ++ sale 1 0 150 0 :: [sale 2 1 150 0])
  = calculate_gains ([buy 0 1 100 0] ++ [sale 2 1 150 0]).
Proof.
  apply (sale_of_nothing_is_skipped [buy 0 1 100 0] [sale 2 1 150 0]
                                    (sale 1 0 150 0)).
  - reflexivity.
  - vm_compute. discriminate.
Defined.

Lemma sale_from_an_empty_lot_raises_witness :
  calculate_gains ([buy 0 0 100 0] ++ sale 1 1 150 0 :: [])
  = Raise ZeroDivisionError.
Proof.
  apply (sale_from_an_empty_lot_raises [buy 0 0 100 0] [] (sale 1 1 150 0)
                                       (Lot.mk 0 100 0 0) [] []).
  - reflexivity.
  - reflexivity.
  - reflexivity.
  - reflexivity.
Defined.

Lemma tax_is_owed_on_gains_only_witness :
  exists gs,
    calculate_gains [buy 0 2 100 0; sale 1 1 150 0; sale 400 1 50 0] = Ok gs /\
    forall g, In g gs ->
      Gain.tax_rate g
      = (match Gain.term g with
         | Long => LONG_TERM_TAX_RATE
         | Short => SHORT_TERM_TAX_RATE
         end) /\
      0 <= Gain.tax_owed g /\
      (Gain.gain g < 0 -> Gain.tax_owed g == 0).
Proof.
  eexists. split.
  - vm_compute. reflexivity.
  - apply (tax_is_owed_on_gains_only
             [buy 0 2 100 0; sale 1 1 150 0; sale 400 1 50 0]).
    vm_compute. reflexivity.
Defined.



(** The parsers of the examples: the date is a day number, and the numbers
    are whole. *)
Lemma load_transactions_sorts_by_date_witness :
  exists built,
    Forall2
      (fun r tx =>
         Load.build_tx (fun s _ => Load.read_number s)
                       (fun s => option_map inject_Z (Load.read_number s))
                       (fun s => s) r = Load.Loaded tx)
      [Load.example_row "7" "SALE" "1" "150" "0";
       Load.example_row "3" "BUY" "1" "100" "0"] built /\
    Permutation
      [Tx.mk 3 "BUY" (inject_Z 1) (inject_Z 100) (inject_Z 0);
       Tx.mk 7 "SALE" (inject_Z 1) (inject_Z 150) (inject_Z 0)] built /\
    ascending
      (map Tx.date
           [Tx.mk 3 "BUY" (inject_Z 1) (inject_Z 100) (inject_Z 0);
            Tx.mk 7 "SALE" (inject_Z 1) (inject_Z 150) (inject_Z 0)]) /\
    (forall d,
        Load.with_key Tx.date d
          [Tx.mk 3 "BUY" (inject_Z 1) (inject_Z 100) (inject_Z 0);
           Tx.mk 7 "SALE" (inject_Z 1) (inject_Z 150) (inject_Z 0)]
        = Load.with_key Tx.date d built).
Proof.
  apply (LoadFacts.load_transactions_sorts_by_date
           (fun s _ => Load.read_number s)
           (fun s => option_map inject_Z (Load.read_number s))
           (fun s => s)
           [Load.example_row "7" "SALE" "1" "150" "0";
            Load.example_row "3" "BUY" "1" "100" "0"]).
  vm_compute. reflexivity.
Defined.

Lemma sorted_is_the_stable_order_witness :
  [(1%Z, "a"%string); (1%Z, "b"%string); (2%Z, "c"%string)]
  = Load.sorted fst [(2%Z, "c"%string); (1%Z, "a"%string); (1%Z, "b"%string)].
Proof.
  apply (LoadFacts.sorted_is_the_stable_order fst).
  - cbn. repeat constructor; lia.
  - intro d. unfold Load.with_key. cbn [filter fst].
    destruct (Z.eqb_spec 2 d), (Z.eqb_spec 1 d); try reflexivity. lia.
Defined.

Lemma load_transactions_keeps_date_order_witness :
  Load.load_transactions (fun s _ => Load.read_number s)
                         (fun s => option_map inject_Z (Load.read_number s))
                         (fun s => s)
                         [Load.example_row "3" "BUY" "1" "100" "0";
                          Load.example_row "3" "SALE" "1" "150" "0"]
  = Load.Loaded [Tx.mk 3 "BUY" (inject_Z 1) (inject_Z 100) (inject_Z 0);
                 Tx.mk 3 "SALE" (inject_Z 1) (inject_Z 150) (inject_Z 0)].
Proof.
  apply LoadFacts.load_transactions_keeps_date_order.
  - repeat constructor.
  - cbn. repeat constructor; lia.
Defined.

Lemma load_transactions_fails_on_first_bad_row_witness :
  Load.load_transactions (fun s _ => Load.read_number s)
                         (fun s => option_map inject_Z (Load.read_number s))
                         (fun s => s)
                         ([Load.example_row "3" "BUY" "1" "100" "0"]
                            ++ Load.short_row "4"
                            :: [Load.example_row "x" "BUY" "1" "100" "0"])
  = Load.Failed Load.AttributeError.
Proof.
  apply LoadFacts.load_transactions_fails_on_first_bad_row.
  - constructor; [|constructor].
    exists "3"%string, "BUY"%string, "1"%string, "100"%string, "0"%string,
           3%Z, (inject_Z 1), (inject_Z 100), (inject_Z 0).
    repeat split.
  - reflexivity.
Defined.

Lemma loaded_transactions_keep_queue_sorted_witness :
  (forall q,
      observed py_round
               [Tx.mk 3 "BUY" (inject_Z 1) (inject_Z 100) (inject_Z 0);
                Tx.mk 7 "SALE" (inject_Z 1) (inject_Z 150) (inject_Z 0)]
               ([], []) q ->
      ascending (map Lot.date q)) /\
  (forall gs g,
      calculate_gains
        [Tx.mk 3 "BUY" (inject_Z 1) (inject_Z 100) (inject_Z 0);
         Tx.mk 7 "SALE" (inject_Z 1) (inject_Z 150) (inject_Z 0)] = Ok gs ->
      In g gs -> (0 <= Gain.holding_days g)%Z).
Proof.
  apply (LoadFacts.loaded_transactions_keep_queue_sorted
           (fun s _ => Load.read_number s)
           (fun s => option_map inject_Z (Load.read_number s))
           (fun s => s)
           [Load.example_row "7" "SALE" "1" "150" "0";
            Load.example_row "3" "BUY" "1" "100" "0"]).
  vm_compute. reflexivity.
Defined.
